(** * Salmonberry: Sentinel-2 query and download helpers

    A shallow embedding of [src/sentinel_query.py] and
    [src/scripts/sentinel_query.py]: the seasonal date-window builder
    [_month_limited_date_ranges], the catalogue query with its final sort
    ([query_sentinel_products]) and the download loop ([download_products]).

    Python objects are modelled by value ([pyval], [dict]); the metadata
    records, which the query mutates in place, live in a store ([heap])
    and are passed around by reference ([loc]).  Exceptions are an explicit
    error result.  The external collaborators (sentinelsat, the file system)
    are oracles that answer as a function of the calls made so far. *)

From Stdlib Require Import ZArith QArith Lia Bool.
From Stdlib Require Import Strings.String Strings.Ascii.
From stdpp Require Import base option list list_numbers gmap strings sorting.

Local Open Scope string_scope.
Local Open Scope list_scope.
Local Open Scope stdpp_scope.
Local Open Scope Z_scope.

(** ** Exceptions and the error result *)

(** The exception classes the modelled code can meet.  [KeyboardInterrupt]
    and [SystemExit] derive from [BaseException] only, so that
    [except Exception] does not catch them. *)
Inductive exn : Type :=
  | ValueError
  | OverflowError
  | TypeError
  | OSError
  | ConnectionError
  | ServerError
  | KeyboardInterrupt
  | SystemExit.

Definition is_Exception (e : exn) : bool :=
  match e with
  | KeyboardInterrupt | SystemExit => false
  | _ => true
  end.

Definition result (A : Type) : Type := (exn + A)%type.

Definition raise {A} (e : exn) : result A := inl e.
Definition ok {A} (a : A) : result A := inr a.

Definition bindR {A B} (m : result A) (k : A -> result B) : result B :=
  match m with
  | inl e => inl e
  | inr a => k a
  end.

Notation "'let*' x := m 'in' k" := (bindR m (fun x => k))
  (at level 10, x name, m at level 100, k at level 200).

(** ** Python values *)

(** The values a metadata record holds, as far as the code looks at them:
    [None], integers, strings and (naive) [datetime] objects, the latter by
    their microsecond count. *)
Inductive pyval : Type :=
  | VNone
  | VInt (z : Z)
  | VStr (s : string)
  | VTime (t : Z).

#[global] Instance pyval_eq_dec : EqDecision pyval.
Proof. solve_decision. Defined.

#[global] Instance exn_eq_dec : EqDecision exn.
Proof. solve_decision. Defined.

(** Truth value of an object ([bool(v)]). *)
Definition truthy (v : pyval) : bool :=
  match v with
  | VNone => false
  | VInt z => negb (z =? 0)
  | VStr s => negb (String.eqb s "")
  | VTime _ => true
  end.

(** [a or b] *)
Definition py_or (a b : pyval) : pyval := if truthy a then a else b.

(** [a < b]: defined between two integers, two strings or two datetimes,
    a [TypeError] otherwise (in particular whenever [None] is involved). *)
Definition py_lt (a b : pyval) : result bool :=
  match a, b with
  | VInt x, VInt y => ok (x <? y)
  | VStr x, VStr y => ok (String.ltb x y)
  | VTime x, VTime y => ok (x <? y)
  | _, _ => raise TypeError
  end.

(** A [dict] with string keys. *)
Abbreviation dict := (gmap string pyval).

(** [d.get(k)] *)
Definition dict_get (d : dict) (k : string) : pyval := default VNone (d !! k).

(** ** [datetime.date] *)

Definition MINYEAR : Z := 1.
Definition MAXYEAR : Z := 9999.

Definition is_leap (y : Z) : bool :=
  (y mod 4 =? 0) && (negb (y mod 100 =? 0) || (y mod 400 =? 0)).

Definition days_in_month (y m : Z) : Z :=
  if (m =? 2) && is_leap y then 29
  else match m with
       | 1 | 3 | 5 | 7 | 8 | 10 | 12 => 31
       | 4 | 6 | 9 | 11 => 30
       | 2 => 28
       | _ => -1
       end.

Record date : Type := Date { year : Z; month : Z; day : Z }.

#[global] Instance date_eq_dec : EqDecision date.
Proof. solve_decision. Defined.

(** The values of a C [int] (32 bits), to which CPython's [datetime.date]
    converts its three arguments before it looks at them. *)
Definition INT_MIN : Z := -2147483648.
Definition INT_MAX : Z := 2147483647.

Definition fits_int (z : Z) : bool := (INT_MIN <=? z) && (z <=? INT_MAX).

(** [datetime.date(y, m, d)]: an argument that does not fit a C [int]
    raises [OverflowError]; then the constructor checks the three fields
    in turn and raises [ValueError] at the first one out of range. *)
Definition date_new (y m d : Z) : result date :=
  if negb (fits_int y && fits_int m && fits_int d) then raise OverflowError
  else if negb ((MINYEAR <=? y) && (y <=? MAXYEAR)) then raise ValueError
  else if negb ((1 <=? m) && (m <=? 12)) then raise ValueError
  else if negb ((1 <=? d) && (d <=? days_in_month y m)) then raise ValueError
  else ok (Date y m d).

Definition digit (n : Z) : ascii := ascii_of_N (48 + Z.to_N n).

(** The [w] low decimal digits of [n], most significant first: ["%0wd"]
    for [0 <= n < 10^w]. *)
Fixpoint zfill (w : nat) (n : Z) : string :=
  match w with
  | O => ""
  | S w' => zfill w' (n / 10) +:+ String (digit (n mod 10)) ""
  end.

(** [d.isoformat()], i.e. ["%04d-%02d-%02d"]. *)
Definition isoformat (d : date) : string :=
  zfill 4 (year d) +:+ "-" +:+ zfill 2 (month d) +:+ "-" +:+ zfill 2 (day d).

(** Chronological order on dates. *)
Definition date_le (a b : date) : Prop :=
  year a < year b \/
  (year a = year b /\ (month a < month b \/ (month a = month b /\ day a <= day b))).

(** [range(lo, hi)] *)
Definition range (lo hi : Z) : list Z := seqZ lo (hi - lo).

(** [for x in xs: acc = body(x, acc)], where the body may raise. *)
Fixpoint for_result {A S : Type} (xs : list A) (body : A -> S -> result S) (acc : S)
  : result S :=
  match xs with
  | [] => ok acc
  | x :: xs' => let* acc' := body x acc in for_result xs' body acc'
  end.

(** ** [list.sort(key=..., reverse=...)] *)

Section ListSort.
Context {A : Type} (key : A -> pyval).

(** Insertion of [x] into an ascending run, to the right of every element
    that is not greater than it; only [<] is used on the keys, as
    CPython does, and a comparison that raises aborts the sort. *)
Fixpoint insort (x : A) (run : list A) : result (list A) :=
  match run with
  | [] => ok [x]
  | y :: run' =>
      let* lt := py_lt (key x) (key y) in
      if (lt : bool) then ok (x :: y :: run')
      else let* r := insort x run' in ok (y :: r)
  end.

(** The stable ascending sort.  CPython's merge sort makes other
    comparisons than this insertion sort, but it is stable as well, and it
    compares every element of a list of two or more with another one, so
    that it raises on the same inputs and returns the same list (order and
    stability determine the list, see [stable_descending_unique]). *)
Definition sort_asc (l : list A) : result (list A) :=
  for_result l insort [].

(** [l.sort(key=key, reverse=reverse)]: with [reverse], the list is
    reversed, sorted ascending and reversed again, which keeps the
    original order among equal keys. *)
Definition list_sort (reverse : bool) (l : list A) : result (list A) :=
  let l1 := if reverse then list.reverse l else l in
  let* s := sort_asc l1 in
  ok (if reverse then list.reverse s else s).
End ListSort.

(** ** The store, the outside world and the monad of the effectful code *)

Abbreviation loc := positive.
Abbreviation heap := (gmap loc dict).

(** The record behind a reference; a reference the store does not list
    stands for a record without fields. *)
Definition deref (h : heap) (l : loc) : dict := default ∅ (h !! l).

(** [SentinelCredentials] *)
Record SentinelCredentials : Type := {
  user : string;
  password : string;
  api_url : string;
}.

(** The client object [SentinelAPI(user, password, api_url)]. *)
Record SentinelAPI : Type := {
  api_user : string;
  api_password : string;
  api_endpoint : string;
}.

(** The arguments of one [api.query] call.  The cloud-cover ceiling is a
    [float] that the code passes on as it gets it; a rational stands for
    it. *)
Record query_args : Type := {
  q_area : string;
  q_date : string * string;
  q_platformname : string;
  q_producttype : string;
  q_cloudcoverpercentage : Z * Q;
}.

(** What [api.download] hands back: a [dict] or some other object. *)
Inductive pyobj : Type :=
  | ODict (d : dict)
  | OVal (v : pyval).

(** The calls that leave the program. *)
Inductive call : Type :=
  | CallExists (path : string)
  | CallMakedirs (path : string)
  | CallQuery (api : SentinelAPI) (args : query_args)
  | CallDownload (api : SentinelAPI) (uid : pyval) (directory_path : string).

(** The outside world: each oracle answers from the calls made so far.
    [api_query] lists the items of the mapping it returns, identifier and
    reference to the metadata record, in iteration order; two items may
    refer to one and the same record.  The records are in the store from
    the start, and only the program writes to them. *)
Record world : Type := {
  os_path_exists : list call -> string -> bool;
  os_makedirs : list call -> string -> result unit;
  api_query : list call -> SentinelAPI -> query_args -> result (list (pyval * loc));
  api_download : list call -> SentinelAPI -> pyval -> string -> result pyobj;
}.

Inductive level : Type := DEBUG | INFO | WARNING | ERROR.

Inductive logarg : Type :=
  | AVal (v : pyval)
  | ADict (d : dict)
  | AExn (e : exn).

(** One call of a [logger] method: level, format string, arguments. *)
Record logrec : Type := Log {
  log_level : level;
  log_fmt : string;
  log_args : list logarg;
}.

Record state : Type := State {
  st_heap : heap;
  st_trace : list call;
  st_log : list logrec;
}.

Definition M (A : Type) : Type := state -> result A * state.

Definition ret {A} (a : A) : M A := fun s => (ok a, s).

Definition bindM {A B} (m : M A) (k : A -> M B) : M B :=
  fun s => match m s with
           | (inl e, s') => (inl e, s')
           | (inr a, s') => k a s'
           end.

Notation "x <- m ;; k" := (bindM m (fun x => k))
  (at level 100, m at next level, right associativity).
Notation "m ;; k" := (bindM m (fun _ => k))
  (at level 100, right associativity).

(** A pure computation that may raise. *)
Definition lift {A} (r : result A) : M A := fun s => (r, s).

(** [try: body  except Exception as e: handler(e)] *)
Definition try_except {A} (body : M A) (handler : exn -> M A) : M A :=
  fun s => match body s with
           | (inl e, s') => if is_Exception e then handler e s' else (inl e, s')
           | (inr a, s') => (inr a, s')
           end.

(** [for x in xs: acc = body(x, acc)] *)
Fixpoint for_M {A S : Type} (xs : list A) (body : A -> S -> M S) (acc : S) : M S :=
  match xs with
  | [] => ret acc
  | x :: xs' => acc' <- body x acc ;; for_M xs' body acc'
  end.

Definition logger (lvl : level) (fmt : string) (args : list logarg) : M unit :=
  fun s => (ok tt, State (st_heap s) (st_trace s) (st_log s ++ [Log lvl fmt args])).

(** [meta.get(k)] on the record behind [meta]. *)
Definition meta_get (meta : loc) (k : string) : M pyval :=
  fun s => (ok (dict_get (deref (st_heap s) meta) k), s).

(** The record behind [meta], as a logging argument. *)
Definition meta_repr (meta : loc) : M logarg :=
  fun s => (ok (ADict (deref (st_heap s) meta)), s).

(** [meta[k] = v] *)
Definition meta_set (meta : loc) (k : string) (v : pyval) : M unit :=
  fun s => (ok tt,
            State (<[meta := <[k := v]> (deref (st_heap s) meta)]> (st_heap s))
                  (st_trace s) (st_log s)).

Section Calls.
Context (W : world).

Definition path_exists (path : string) : M bool :=
  fun s => (ok (os_path_exists W (st_trace s) path),
            State (st_heap s) (st_trace s ++ [CallExists path]) (st_log s)).

Definition makedirs (path : string) : M unit :=
  fun s => (os_makedirs W (st_trace s) path,
            State (st_heap s) (st_trace s ++ [CallMakedirs path]) (st_log s)).

Definition query (api : SentinelAPI) (args : query_args) : M (list (pyval * loc)) :=
  fun s => (api_query W (st_trace s) api args,
            State (st_heap s) (st_trace s ++ [CallQuery api args]) (st_log s)).

Definition download (api : SentinelAPI) (uid : pyval) (directory_path : string)
  : M pyobj :=
  fun s => (api_download W (st_trace s) api uid directory_path,
            State (st_heap s) (st_trace s ++ [CallDownload api uid directory_path])
                  (st_log s)).
End Calls.

(** [results.sort(key=lambda m: m.get("beginposition") or m.get("ingestiondate"),
    reverse=True)], on the records as the store has them. *)
Definition sort_key (h : heap) (m : loc) : pyval :=
  py_or (dict_get (deref h m) "beginposition") (dict_get (deref h m) "ingestiondate").

Definition sort_results (results : list loc) : M (list loc) :=
  fun s => (list_sort (sort_key (st_heap s)) true results, s).

Definition SENTINEL2_PRODUCTTYPE : string := "S2MSI2A".
Definition DEFAULT_CLOUD_MAX : Q := 5 # 1.

(** ** [src/sentinel_query.py] *)

Module Original.

(** Lines 78-80. *)
Definition _ensure_dir (W : world) (path : string) : M unit :=
  e <- path_exists W path ;;
  if negb e then makedirs W path else ret tt.

(** Lines 83-96. *)
Definition _month_limited_date_ranges (start_year end_year : Z) (months : Z * Z)
  : result (list (string * string)) :=
  for_result (range start_year (end_year + 1))
    (fun y ranges =>
       let* d1 := date_new y (fst months) 1 in
       let start := isoformat d1 in
       let* d2 := date_new y (snd months) 31 in
       let end_ := isoformat d2 in
       ok (ranges ++ [(start, end_)]))
    [].

(** Lines 103-143. *)
Definition query_sentinel_products (W : world) (creds : SentinelCredentials)
    (wkt_area : string) (start_year end_year : Z) (cloud_max : Q)
    (product_type platformname : string) : M (list loc) :=
  logger INFO "Connecting to Copernicus with sentinelsat at %s"
         [AVal (VStr (api_url creds))] ;;
  let api := Build_SentinelAPI (user creds) (password creds) (api_url creds) in
  let results := [] in
  date_ranges <- lift (_month_limited_date_ranges start_year end_year (5, 8)) ;;
  logger INFO "Querying date ranges (May-August) for years %d-%d"
         [AVal (VInt start_year); AVal (VInt end_year)] ;;
  results <- for_M date_ranges
    (fun '(start_iso, end_iso) results =>
       logger DEBUG "Querying %s to %s" [AVal (VStr start_iso); AVal (VStr end_iso)] ;;
       products <- query W api
         {| q_area := wkt_area;
            q_date := (start_iso, end_iso);
            q_platformname := platformname;
            q_producttype := product_type;
            q_cloudcoverpercentage := (0, cloud_max) |} ;;
       for_M products
         (fun '(uid, meta) results =>
            meta_set meta "_uid" uid ;;
            ret (results ++ [meta]))
         results)
    results ;;
  results <- sort_results results ;;
  logger INFO "Found %d products matching criteria"
         [AVal (VInt (Z.of_nat (length results)))] ;;
  ret results.

(** The loop of [download_products], lines 161-174, from the list
    [downloaded] gathered so far. *)
Definition download_loop (W : world) (api : SentinelAPI) (out_dir : string)
    (products : list loc) (downloaded : list pyval) : M (list pyval) :=
  for_M products
    (fun meta downloaded =>
       uid <- meta_get meta "_uid" ;;
       if negb (truthy uid) then
         r <- meta_repr meta ;;
         logger WARNING "Product metadata missing UID, skipping: %s" [r] ;;
         ret downloaded
       else
         try_except
           (title <- meta_get meta "title" ;;
            logger INFO "Downloading product %s (%s)" [AVal title; AVal uid] ;;
            res <- download W api uid out_dir ;;
            let local_path := match res with
                              | ODict d => dict_get d "path"
                              | OVal v => v
                              end in
            ret (downloaded ++ [local_path]))
           (fun e =>
              logger ERROR "Failed to download product %s: %s" [AVal uid; AExn e] ;;
              ret downloaded))
    downloaded.

(** Lines 146-176. *)
Definition download_products (W : world) (creds : SentinelCredentials)
    (products : list loc) (out_dir : string) (api : option SentinelAPI)
  : M (list pyval) :=
  _ensure_dir W out_dir ;;
  let api := match api with
             | None => Build_SentinelAPI (user creds) (password creds) (api_url creds)
             | Some a => a
             end in
  downloaded <- download_loop W api out_dir products [] ;;
  logger INFO "Downloaded %d products" [AVal (VInt (Z.of_nat (length downloaded)))] ;;
  ret downloaded.

End Original.

(** ** [src/scripts/sentinel_query.py] *)

Module Scripts.

(** Lines 139-141. *)
Definition _ensure_dir (W : world) (path : string) : M unit :=
  e <- path_exists W path ;;
  if negb e then makedirs W path else ret tt.

(** Lines 144-157. *)
Definition _month_limited_date_ranges (start_year end_year : Z) (months : Z * Z)
  : result (list (string * string)) :=
  for_result (range start_year (end_year + 1))
    (fun y ranges =>
       let* d1 := date_new y (fst months) 1 in
       let start := isoformat d1 in
       let* d2 := date_new y (snd months) 31 in
       let end_ := isoformat d2 in
       ok (ranges ++ [(start, end_)]))
    [].

(** The default of the [months] parameter. *)
Definition default_months : Z * Z := (5, 8).

(** Lines 164-209. *)
Definition query_sentinel_products (W : world) (creds : SentinelCredentials)
    (wkt_area : string) (start_year end_year : Z) (cloud_max : Q)
    (product_type platformname : string) (months : Z * Z) : M (list loc) :=
  logger INFO "Connecting to Copernicus with sentinelsat at %s"
         [AVal (VStr (api_url creds))] ;;
  let api := Build_SentinelAPI (user creds) (password creds) (api_url creds) in
  let results := [] in
  date_ranges <- lift (_month_limited_date_ranges start_year end_year months) ;;
  logger INFO "Querying date ranges (months %d-%d) for years %d-%d"
         [AVal (VInt (fst months)); AVal (VInt (snd months));
          AVal (VInt start_year); AVal (VInt end_year)] ;;
  results <- for_M date_ranges
    (fun '(start_iso, end_iso) results =>
       logger DEBUG "Querying %s to %s" [AVal (VStr start_iso); AVal (VStr end_iso)] ;;
       products <- query W api
         {| q_area := wkt_area;
            q_date := (start_iso, end_iso);
            q_platformname := platformname;
            q_producttype := product_type;
            q_cloudcoverpercentage := (0, cloud_max) |} ;;
       for_M products
         (fun '(uid, meta) results =>
            meta_set meta "_uid" uid ;;
            ret (results ++ [meta]))
         results)
    results ;;
  results <- sort_results results ;;
  logger INFO "Found %d products matching criteria"
         [AVal (VInt (Z.of_nat (length results)))] ;;
  ret results.

(** The loop of [download_products], lines 267-280, from the list
    [downloaded] gathered so far. *)
Definition download_loop (W : world) (api : SentinelAPI) (out_dir : string)
    (products : list loc) (downloaded : list pyval) : M (list pyval) :=
  for_M products
    (fun meta downloaded =>
       uid <- meta_get meta "_uid" ;;
       if negb (truthy uid) then
         r <- meta_repr meta ;;
         logger WARNING "Product metadata missing UID, skipping: %s" [r] ;;
         ret downloaded
       else
         try_except
           (title <- meta_get meta "title" ;;
            logger INFO "Downloading product %s (%s)" [AVal title; AVal uid] ;;
            res <- download W api uid out_dir ;;
            let local_path := match res with
                              | ODict d => dict_get d "path"
                              | OVal v => v
                              end in
            ret (downloaded ++ [local_path]))
           (fun e =>
              logger ERROR "Failed to download product %s: %s" [AVal uid; AExn e] ;;
              ret downloaded))
    downloaded.

(** Lines 252-282. *)
Definition download_products (W : world) (creds : SentinelCredentials)
    (products : list loc) (out_dir : string) (api : option SentinelAPI)
  : M (list pyval) :=
  _ensure_dir W out_dir ;;
  let api := match api with
             | None => Build_SentinelAPI (user creds) (password creds) (api_url creds)
             | Some a => a
             end in
  downloaded <- download_loop W api out_dir products [] ;;
  logger INFO "Downloaded %d products" [AVal (VInt (Z.of_nat (length downloaded)))] ;;
  ret downloaded.

End Scripts.

(** The initial state of a run over the store [h]. *)
Definition init (h : heap) : state := State h [] [].

(** ** Notions used in the statements *)

(** The months of 31 days. *)
Definition has_31_days (m : Z) : bool :=
  match m with
  | 1 | 3 | 5 | 7 | 8 | 10 | 12 => true
  | _ => false
  end.

Definition valid_year (y : Z) : Prop := MINYEAR <= y <= MAXYEAR.

(** [d] is a value the [date] constructor accepts. *)
Definition valid_date (d : date) : Prop :=
  date_new (year d) (month d) (day d) = ok d.

(** The window of year [y]: first day of the start month, day 31 of the
    end month, both in ISO format. *)
Definition window (months : Z * Z) (y : Z) : string * string :=
  (isoformat (Date y (fst months) 1), isoformat (Date y (snd months) 31)).

(** The month pairs the builder accepts. *)
Definition months_accepted (months : Z * Z) : Prop :=
  1 <= fst months <= 12 /\ has_31_days (snd months) = true.

(** The first [datetime.date] call that year [y] makes with an argument
    that does not fit a C [int]: the year or the start month does not, or
    the first date is accepted and the end month does not. *)
Definition date_overflows (y : Z) (months : Z * Z) : Prop :=
  fits_int y = false \/ fits_int (fst months) = false \/
  (valid_year y /\ 1 <= fst months <= 12 /\ fits_int (snd months) = false).

(** The kinds of values that [<] compares: two values compare exactly when
    they are of one kind. *)
Inductive kind : Type := KInt | KStr | KTime.

Definition kind_of (v : pyval) : option kind :=
  match v with
  | VNone => None
  | VInt _ => Some KInt
  | VStr _ => Some KStr
  | VTime _ => Some KTime
  end.

(** The three entries of the ranking example: [a] without timestamp,
    [b] of 2021-06-01, [c] of 2020-06-01. *)
Definition entry_a : loc := 1%positive.
Definition entry_b : loc := 2%positive.
Definition entry_c : loc := 3%positive.

Definition example_store : heap :=
  {[ entry_a := {[ "_uid" := VStr "a"; "beginposition" := VNone ]};
     entry_b := {[ "_uid" := VStr "b"; "beginposition" := VStr "2021-06-01" ]};
     entry_c := {[ "_uid" := VStr "c"; "beginposition" := VStr "2020-06-01" ]} ]}.

(** The client [download_products] works with: the one it is given, or a
    new one from the credentials. *)
Definition client (creds : SentinelCredentials) (api : option SentinelAPI) : SentinelAPI :=
  match api with
  | None => Build_SentinelAPI (user creds) (password creds) (api_url creds)
  | Some a => a
  end.

(** The identifier of the record behind [m]. *)
Definition uid_of (h : heap) (m : loc) : pyval := dict_get (deref h m) "_uid".

(** The local path in what a download returned. *)
Definition local_path (res : pyobj) : pyval :=
  match res with
  | ODict d => dict_get d "path"
  | OVal v => v
  end.

(** The log records of [download_products]. *)
Definition log_skip (h : heap) (m : loc) : logrec :=
  Log WARNING "Product metadata missing UID, skipping: %s" [ADict (deref h m)].
Definition log_downloading (h : heap) (m : loc) : logrec :=
  Log INFO "Downloading product %s (%s)"
      [AVal (dict_get (deref h m) "title"); AVal (uid_of h m)].
Definition log_failed (uid : pyval) (e : exn) : logrec :=
  Log ERROR "Failed to download product %s: %s" [AVal uid; AExn e].
Definition log_downloaded (n : nat) : logrec :=
  Log INFO "Downloaded %d products" [AVal (VInt (Z.of_nat n))].

(** The calls [_ensure_dir] makes after the trace [t], and the condition
    under which it returns. *)
Definition ensure_dir_calls (W : world) (t : list call) (path : string) : list call :=
  if os_path_exists W t path then [CallExists path]
  else [CallExists path; CallMakedirs path].

Definition dir_ready (W : world) (t : list call) (path : string) : Prop :=
  os_path_exists W t path = true \/
  os_makedirs W (t ++ [CallExists path]) path = ok tt.

(** The download calls of a batch: one for every entry with an identifier,
    in the order of the entries. *)
Definition download_calls (api : SentinelAPI) (out_dir : string) (h : heap)
    (products : list loc) : list call :=
  (fun m => CallDownload api (uid_of h m) out_dir)
    <$> filter (fun m => truthy (uid_of h m) = true) products.

(** The local paths the world produces for the calls [calls] made one
    after the other from the trace [t]: one for every download that
    returns, none for one that raises. *)
Fixpoint produced (W : world) (t : list call) (calls : list call) : list pyval :=
  match calls with
  | [] => []
  | c :: calls' =>
      match c with
      | CallDownload api uid out_dir =>
          match api_download W t api uid out_dir with
          | inr res => [local_path res]
          | inl _ => []
          end
      | _ => []
      end ++ produced W (t ++ [c]) calls'
  end.

(** The state after an entry without identifier was skipped, and after a
    download was tried and raised [e]. *)
Definition skipped (m : loc) (s : state) : state :=
  State (st_heap s) (st_trace s) (st_log s ++ [log_skip (st_heap s) m]).

Definition failed_attempt (api : SentinelAPI) (out_dir : string) (m : loc) (e : exn)
    (s : state) : state :=
  State (st_heap s)
        (st_trace s ++ [CallDownload api (uid_of (st_heap s) m) out_dir])
        (st_log s ++ [log_downloading (st_heap s) m;
                      log_failed (uid_of (st_heap s) m) e]).

(** Every exception the download of the world raises is an [Exception]. *)
Definition downloads_raise_Exception (W : world) : Prop :=
  forall t api uid out_dir e,
    api_download W t api uid out_dir = inl e -> is_Exception e = true.

(** The log records of [query_sentinel_products]; the second one is worded
    differently in the two files. *)
Definition log_connecting (creds : SentinelCredentials) : logrec :=
  Log INFO "Connecting to Copernicus with sentinelsat at %s" [AVal (VStr (api_url creds))].
Definition log_years_original (start_year end_year : Z) : logrec :=
  Log INFO "Querying date ranges (May-August) for years %d-%d"
      [AVal (VInt start_year); AVal (VInt end_year)].
Definition log_years_scripts (months : Z * Z) (start_year end_year : Z) : logrec :=
  Log INFO "Querying date ranges (months %d-%d) for years %d-%d"
      [AVal (VInt (fst months)); AVal (VInt (snd months));
       AVal (VInt start_year); AVal (VInt end_year)].
Definition log_found (n : nat) : logrec :=
  Log INFO "Found %d products matching criteria" [AVal (VInt (Z.of_nat n))].

(** Some [api.query] call of the trace [t], at position [from] or later,
    returned the record [m] under the identifier [uid]. *)
Definition returned_by (W : world) (t : list call) (from : nat) (uid : pyval) (m : loc)
  : Prop :=
  exists (i : nat) (api : SentinelAPI) (args : query_args) (items : list (pyval * loc)),
    (from <= i)%nat /\
    t !! i = Some (CallQuery api args) /\
    api_query W (take i t) api args = ok items /\
    (uid, m) ∈ items.

(** Two log records agree up to the wording of the date-range message. *)
Definition same_record (start_year end_year : Z) (a b : logrec) : Prop :=
  a = b \/
  (a = log_years_original start_year end_year /\
   b = log_years_scripts (5, 8) start_year end_year).

(** A computation that only ever appends to the log, and does not look at
    it: from a store and a trace it gives the same result, store and trace
    and the same new records, whatever the log was. *)
Definition log_blind {A} (m : M A) : Prop :=
  forall (h : heap) (t : list call),
    exists r h' t' dl,
      forall l, m (State h t l) = (r, State h' t' (l ++ dl)).

(** A world for the examples: the directory exists, the catalogue is
    empty, and every download returns a record with the path
    [<uid>.zip], but the one of [b], which fails. *)
Definition example_world : world := {|
  os_path_exists := fun _ _ => true;
  os_makedirs := fun _ _ => ok tt;
  api_query := fun _ _ _ => ok [];
  api_download := fun _ _ uid _ =>
    match uid with
    | VStr "b" => raise ConnectionError
    | VStr u => ok (ODict {[ "path" := VStr (u +:+ ".zip") ]})
    | _ => raise ServerError
    end;
|}.

(** A world whose catalogue answers the window of 2021 with the record [b]
    and the window of 2020 with the record [c]. *)
Definition catalog_world : world := {|
  os_path_exists := fun _ _ => true;
  os_makedirs := fun _ _ => ok tt;
  api_query := fun _ _ args =>
    if decide (q_date args = ("2021-05-01", "2021-08-31")) then ok [(VStr "b", entry_b)]
    else if decide (q_date args = ("2020-05-01", "2020-08-31")) then ok [(VStr "c", entry_c)]
    else ok [];
  api_download := fun _ _ _ _ => raise ServerError;
|}.

(** A world whose catalogue returns one record, [b], under two
    identifiers. *)
Definition aliasing_world : world := {|
  os_path_exists := fun _ _ => true;
  os_makedirs := fun _ _ => ok tt;
  api_query := fun _ _ _ => ok [(VStr "x", entry_b); (VStr "y", entry_b)];
  api_download := fun _ _ _ _ => raise ServerError;
|}.

(** Four records, two of 2020 and two of 2021. *)
Definition tie_store : heap :=
  {[ 1%positive := {[ "beginposition" := VStr "2020-07-01" ]};
     2%positive := {[ "ingestiondate" := VStr "2021-07-01" ]};
     3%positive := {[ "beginposition" := VStr "2020-07-01" ]};
     4%positive := {[ "beginposition" := VStr ""; "ingestiondate" := VStr "2021-07-01" ]} ]}.

(** A world whose catalogue answers the window of 2020 with the record [c]
    and fails on the window of 2021. *)
Definition failing_catalog_world : world := {|
  os_path_exists := fun _ _ => true;
  os_makedirs := fun _ _ => ok tt;
  api_query := fun _ _ args =>
    if decide (q_date args = ("2020-05-01", "2020-08-31")) then ok [(VStr "c", entry_c)]
    else raise ConnectionError;
  api_download := fun _ _ _ _ => raise ServerError;
|}.

(** A world whose catalogue answers the window of 2020 with the record
    [a], which has no timestamp, and the window of 2021 with [b]. *)
Definition untimed_catalog_world : world := {|
  os_path_exists := fun _ _ => true;
  os_makedirs := fun _ _ => ok tt;
  api_query := fun _ _ args =>
    if decide (q_date args = ("2020-05-01", "2020-08-31")) then ok [(VStr "a", entry_a)]
    else ok [(VStr "b", entry_b)];
  api_download := fun _ _ _ _ => raise ServerError;
|}.

(** A world without the output directory, in which it cannot be made. *)
Definition readonly_world : world := {|
  os_path_exists := fun _ _ => false;
  os_makedirs := fun _ _ => raise OSError;
  api_query := fun _ _ _ => ok [];
  api_download := fun _ _ _ _ => raise ServerError;
|}.

(** A world in which the download of [b] is interrupted from the
    keyboard. *)
Definition interrupting_world : world := {|
  os_path_exists := fun _ _ => true;
  os_makedirs := fun _ _ => ok tt;
  api_query := fun _ _ _ => ok [];
  api_download := fun _ _ uid _ =>
    match uid with
    | VStr "b" => raise KeyboardInterrupt
    | VStr u => ok (ODict {[ "path" := VStr (u +:+ ".zip") ]})
    | _ => raise ServerError
    end;
|}.

Definition example_creds : SentinelCredentials :=
  {| user := "user"; password := "pass"; api_url := "https://dataspace.copernicus.eu/" |}.

(** An entry without identifier. *)
Definition entry_d : loc := 4%positive.

(** ** Notions for the further properties of the query and the download *)

(** The client [query_sentinel_products] builds from the credentials. *)
Definition api_of (creds : SentinelCredentials) : SentinelAPI :=
  Build_SentinelAPI (user creds) (password creds) (api_url creds).

(** The arguments of the query for the date window [w]. *)
Definition window_args (wkt_area : string) (cloud_max : Q)
    (product_type platformname : string) (w : string * string) : query_args :=
  {| q_area := wkt_area;
     q_date := w;
     q_platformname := platformname;
     q_producttype := product_type;
     q_cloudcoverpercentage := (0, cloud_max) |}.

(** The first exception, if any, that the catalogue raises when it is
    asked [argss] one after the other from the trace [t]. *)
Fixpoint first_failure (W : world) (api : SentinelAPI) (t : list call)
    (argss : list query_args) : option exn :=
  match argss with
  | [] => None
  | a :: argss' =>
      match api_query W t api a with
      | inl e => Some e
      | inr _ => first_failure W api (t ++ [CallQuery api a]) argss'
      end
  end.

(** The queries that are made of [argss]: all of them, or those up to the
    first one that raises. *)
Fixpoint queried (W : world) (api : SentinelAPI) (t : list call)
    (argss : list query_args) : list query_args :=
  match argss with
  | [] => []
  | a :: argss' =>
      a :: match api_query W t api a with
           | inl _ => []
           | inr _ => queried W api (t ++ [CallQuery api a]) argss'
           end
  end.

(** The items these queries return, in order. *)
Fixpoint gathered (W : world) (api : SentinelAPI) (t : list call)
    (argss : list query_args) : list (pyval * loc) :=
  match argss with
  | [] => []
  | a :: argss' =>
      match api_query W t api a with
      | inl _ => []
      | inr items => items ++ gathered W api (t ++ [CallQuery api a]) argss'
      end
  end.

(** The store after [meta["_uid"] = uid] for the items [items], in order. *)
Definition stamp (h : heap) (items : list (pyval * loc)) : heap :=
  foldl (fun h '(uid, m) => <[m := <["_uid" := uid]> (deref h m)]> h) h items.

(** The catalogue never raises. *)
Definition queries_return (W : world) : Prop :=
  forall t api args, exists items, api_query W t api args = ok items.

(** ** Configuration values: [src/scripts/sentinel_query.py], lines 51-66 *)

(** What [yaml.safe_load] gives: scalars, lists and mappings.  The keys of
    a mapping are taken to be strings; a mapping keeps the order of its
    items. *)
Inductive cfg : Type :=
  | CNone
  | CBool (b : bool)
  | CInt (z : Z)
  | CFloat (q : Q)
  | CStr (s : string)
  | CList (l : list cfg)
  | CDict (d : list (string * cfg)).

(** [os.environ] *)
Abbreviation environ := (gmap string string).

(** [os.environ.get(k, dflt)] *)
Definition environ_get (E : environ) (k : string) (dflt : string) : string :=
  default dflt (E !! k).

(** The longest prefix of [s] without closing brace, and what follows. *)
Fixpoint span_name (s : string) : string * string :=
  match s with
  | EmptyString => (EmptyString, EmptyString)
  | String c s' =>
      if Ascii.eqb c "}" then (EmptyString, s)
      else let (name, rest) := span_name s' in (String c name, rest)
  end.

(** A match of the pattern [\$\{([^}]+)\}] at the start of [s]: the group
    and what follows the match.  The group takes every character up to the
    first closing brace, and has to take at least one. *)
Definition match_ref (s : string) : option (string * string) :=
  match s with
  | String "$" (String "{" s') =>
      match span_name s' with
      | (String c name, String "}" rest) => Some (String c name, rest)
      | _ => None
      end
  | _ => None
  end.

(** [re.sub(r"\$\{([^}]+)\}", replace_env, s)] with [replace_env] looking
    the group up in the environment: the string is read from the left; at
    a match, the value of the variable (the empty string if there is none)
    is put out and reading goes on behind the match, so that the value is
    not read again; elsewhere the character is copied.  [skip] counts the
    characters of a match still to be passed over. *)
Fixpoint sub_from (E : environ) (skip : nat) (s : string) : string :=
  match s with
  | EmptyString => EmptyString
  | String c s' =>
      match skip with
      | S k => sub_from E k s'
      | O =>
          match match_ref s with
          | Some (name, _) =>
              environ_get E name "" +:+ sub_from E (String.length name + 2) s'
          | None => String c (sub_from E 0 s')
          end
      end
  end.

Definition re_sub_env (E : environ) (s : string) : string := sub_from E 0 s.

(** Lines 51-66. *)
Fixpoint _resolve_env_vars (E : environ) (value : cfg) : cfg :=
  match value with
  | CStr s => CStr (re_sub_env E s)
  | CDict d => CDict (map (fun kv => (fst kv, _resolve_env_vars E (snd kv))) d)
  | CList l => CList (map (_resolve_env_vars E) l)
  | _ => value
  end.

(** The strings in a configuration value, keys apart. *)
Fixpoint cfg_strings (c : cfg) : list string :=
  match c with
  | CStr s => [s]
  | CList l => concat (map cfg_strings l)
  | CDict d => concat (map (fun kv => cfg_strings (snd kv)) d)
  | _ => []
  end.

(** The characters of a string. *)
Fixpoint chars (s : string) : list ascii :=
  match s with
  | EmptyString => []
  | String c s' => c :: chars s'
  end.

(** [d.get(k)] on the items of a mapping. *)
Fixpoint assoc (k : string) (d : list (string * cfg)) : option cfg :=
  match d with
  | [] => None
  | (k', v) :: d' => if String.eqb k k' then Some v else assoc k d'
  end.

(** ** The band stacking: [select_and_stack_bands] *)

(** The exceptions of the code outside the query and the download. *)
Inductive err : Type :=
  | Known (e : exn)
  | FileNotFoundError
  | AttributeError
  | IndexError
  | ExecuteError
  | YAMLError.

Definition xresult (A : Type) : Type := (err + A)%type.

(** What the code takes from Python's library and depends on the platform
    or on Unicode tables: [str.upper], [str.lower] and [os.path.join]. *)
Record pylib : Type := {
  str_upper : string -> string;
  str_lower : string -> string;
  os_path_join : string -> string -> string;
}.

(** [s.startswith(p)] *)
Fixpoint startswith (s p : string) : bool :=
  match p, s with
  | EmptyString, _ => true
  | String c p', String d s' => Ascii.eqb c d && startswith s' p'
  | String _ _, EmptyString => false
  end.

(** [sub in s] *)
Fixpoint contains (sub s : string) : bool :=
  startswith s sub ||
  match s with
  | EmptyString => false
  | String _ s' => contains sub s'
  end.

(** [s.endswith(suf)] *)
Fixpoint endswith (s suf : string) : bool :=
  String.eqb s suf ||
  match s with
  | EmptyString => false
  | String _ s' => endswith s' suf
  end.

(** [band.upper() in f and f.lower().endswith((".jp2", ".tif"))] *)
Definition band_matches (L : pylib) (band f : string) : bool :=
  contains (str_upper L band) f &&
  (endswith (str_lower L f) ".jp2" || endswith (str_lower L f) ".tif").

(** The truth value of [found], [None] or a path. *)
Definition found_truthy (found : option string) : bool :=
  match found with
  | None => false
  | Some p => negb (String.eqb p "")
  end.

(** [for f in files: if ...: found = os.path.join(root, f); break] *)
Fixpoint scan_files (L : pylib) (band root : string) (files : list string)
    (found : option string) : option string :=
  match files with
  | [] => found
  | f :: files' =>
      if band_matches L band f then Some (os_path_join L root f)
      else scan_files L band root files' found
  end.

(** [for root, _, files in os.walk(...): ...; if found: break] *)
Fixpoint scan_walk (L : pylib) (band : string)
    (walk : list (string * list string * list string)) (found : option string)
  : option string :=
  match walk with
  | [] => found
  | (root, _, files) :: walk' =>
      let found := scan_files L band root files found in
      if found_truthy found then found else scan_walk L band walk' found
  end.

(** The calls to the file system and to the toolkit. *)
Inductive rcall : Type :=
  | CallWalk (top : string)
  | CallCompositeBands (in_rasters : list string) (out_raster : string).

(** [os.walk] gives the triples it yields, [mgmt.CompositeBands] raises or
    returns; both answer from the calls made so far. *)
Record toolkit : Type := {
  os_walk : list rcall -> string -> list (string * list string * list string);
  composite_bands : list rcall -> list string -> string -> xresult unit;
}.

Inductive rlogarg : Type :=
  | RStr (s : string)
  | RList (l : list string).

Record rlogrec : Type := RLog {
  rlog_level : level;
  rlog_fmt : string;
  rlog_args : list rlogarg;
}.

Record rstate : Type := RState {
  r_trace : list rcall;
  r_log : list rlogrec;
}.

(** The loop over the bands, from the list [band_files] found so far. *)
Fixpoint find_band_files (T : toolkit) (L : pylib) (sentinel_safe_dir : string)
    (band_list : list string) (band_files : list string) (st : rstate)
  : xresult (list string) * rstate :=
  match band_list with
  | [] => (inr band_files, st)
  | band :: band_list' =>
      let walk := os_walk T (r_trace st) sentinel_safe_dir in
      let st' := RState (r_trace st ++ [CallWalk sentinel_safe_dir]) (r_log st) in
      let found := scan_walk L band walk None in
      if negb (found_truthy found) then (inl FileNotFoundError, st')
      else find_band_files T L sentinel_safe_dir band_list'
             (band_files ++ [default "" found]) st'
  end.

(** [src/sentinel_query.py], lines 257-289, and
    [src/scripts/sentinel_query.py], lines 412-444: the same text. *)
Definition select_and_stack_bands (T : toolkit) (L : pylib) (sentinel_safe_dir : string)
    (band_list : list string) (out_raster : string) (st : rstate)
  : xresult string * rstate :=
  let st := RState (r_trace st)
                   (r_log st ++ [RLog INFO "Preparing band stack from: %s"
                                      [RStr sentinel_safe_dir]]) in
  match find_band_files T L sentinel_safe_dir band_list [] st with
  | (inl e, st) => (inl e, st)
  | (inr band_files, st) =>
      let st := RState (r_trace st)
                       (r_log st ++ [RLog INFO "Compositing bands: %s -> %s"
                                          [RList band_list; RStr out_raster]]) in
      let r := composite_bands T (r_trace st) band_files out_raster in
      let st := RState (r_trace st ++ [CallCompositeBands band_files out_raster])
                       (r_log st) in
      match r with
      | inl e => (inl e, st)
      | inr _ =>
          (inr out_raster,
           RState (r_trace st)
                  (r_log st ++ [RLog INFO "Composite created: %s" [RStr out_raster]]))
      end
  end.

(** The files of a directory tree that qualify for a band, by their joined
    paths, in the order of the walk. *)
Definition candidates (L : pylib) (band : string)
    (walk : list (string * list string * list string)) : list string :=
  concat (map (fun '(root, _, files) =>
                 map (os_path_join L root) (filter (fun f => band_matches L band f = true) files))
              walk).

(** The trace when the [i]-th band is looked for. *)
Definition walks (t : list rcall) (dir : string) (i : nat) : list rcall :=
  t ++ replicate i (CallWalk dir).

(** The file taken for the [i]-th band. *)
Definition picked (T : toolkit) (L : pylib) (dir : string) (t : list rcall)
    (i : nat) (band : string) : option string :=
  head (candidates L band (os_walk T (walks t dir i) dir)).

(** The join of a qualifying file is never the empty path. *)
Definition well_joined (L : pylib) : Prop :=
  forall band root f, band_matches L band f = true -> os_path_join L root f <> "".

(** The files taken for the bands [band_list], the first of which is the
    [i]-th band looked for. *)
Fixpoint picked_files (T : toolkit) (L : pylib) (dir : string) (t : list rcall)
    (i : nat) (band_list : list string) : list string :=
  match band_list with
  | [] => []
  | band :: band_list' =>
      default "" (picked T L dir t i band) :: picked_files T L dir t (S i) band_list'
  end.

(** A file name qualifies for a band: the upper-cased band name occurs in
    it, and lower-cased it ends in [.jp2] or in [.tif]. *)
Definition qualifies (L : pylib) (band f : string) : Prop :=
  (exists a b, f = a +:+ str_upper L band +:+ b) /\
  (exists a, str_lower L f = a +:+ ".jp2" \/ str_lower L f = a +:+ ".tif").

(** Letters of ASCII only, and the join of POSIX for a relative name. *)
Definition ascii_upper (c : ascii) : ascii :=
  let n := nat_of_ascii c in
  if (97 <=? n)%nat && (n <=? 122)%nat then ascii_of_nat (n - 32) else c.
Definition ascii_lower (c : ascii) : ascii :=
  let n := nat_of_ascii c in
  if (65 <=? n)%nat && (n <=? 90)%nat then ascii_of_nat (n + 32) else c.
Fixpoint string_map (f : ascii -> ascii) (s : string) : string :=
  match s with
  | EmptyString => EmptyString
  | String c s' => String (f c) (string_map f s')
  end.
Definition ascii_lib : pylib := {|
  str_upper := string_map ascii_upper;
  str_lower := string_map ascii_lower;
  os_path_join := fun root f => root +:+ "/" +:+ f;
|}.

(** A product directory with the blue band in two resolutions and the red
    band in one. *)
Definition example_tree : list (string * list string * list string) :=
  [("S2.SAFE", ["GRANULE"], ["MTD_MSIL2A.xml"]);
   ("S2.SAFE/GRANULE/R10m", [], ["T04_B02_10m.jp2"; "T04_B04_10m.JP2"; "T04_b03_10m.jp2"]);
   ("S2.SAFE/GRANULE/R20m", [], ["T04_B02_20m.jp2"; "T04_B8A_20m.tif"])].

Definition example_toolkit : toolkit := {|
  os_walk := fun _ _ => example_tree;
  composite_bands := fun _ _ _ => inr tt;
|}.

(** * Properties *)

(** ** The error result and the loops *)

Lemma for_result_app {A S} (xs ys : list A) (body : A -> S -> result S) (acc : S) :
  for_result (xs ++ ys) body acc
  = let* acc' := for_result xs body acc in for_result ys body acc'.
Proof.
  revert acc. induction xs as [|x xs IH]; intros acc; simpl; [done|].
  destruct (body x acc) as [e|acc']; simpl; [done|]. apply IH.
Qed.

(** ** Dates *)

Lemma month_cases (m : Z) :
  1 <= m <= 12 ->
  m = 1 \/ m = 2 \/ m = 3 \/ m = 4 \/ m = 5 \/ m = 6 \/
  m = 7 \/ m = 8 \/ m = 9 \/ m = 10 \/ m = 11 \/ m = 12.
Proof. lia. Qed.

(** Case split on a month known to lie in [1..12]. *)
Ltac each_month m :=
  let H := fresh in
  assert (1 <= m <= 12) as H by lia;
  destruct (month_cases m H)
    as [->|[->|[->|[->|[->|[->|[->|[->|[->|[->|[->| ->]]]]]]]]]]];
  clear H.

Lemma has_31_days_range (m : Z) : has_31_days m = true -> 1 <= m <= 12.
Proof.
  destruct m as [|p|p]; try discriminate.
  do 4 (try (destruct p as [p|p|]; try discriminate)); lia.
Qed.

Lemma days_in_month_31 (y m : Z) :
  1 <= m <= 12 -> (days_in_month y m = 31 <-> has_31_days m = true).
Proof.
  intros Hm. unfold days_in_month.
  each_month m; simpl; try (split; (done || lia)).
  destruct (is_leap y); split; (done || lia).
Qed.

Lemma days_in_month_le (y m : Z) : days_in_month y m <= 31.
Proof.
  unfold days_in_month. destruct ((m =? 2) && is_leap y); [lia|].
  destruct m as [|p|p]; try lia.
  do 4 (try (destruct p as [p|p|]; try lia)).
Qed.

Lemma days_in_month_ge (y m : Z) : 1 <= m <= 12 -> 28 <= days_in_month y m.
Proof.
  intros Hm. unfold days_in_month.
  each_month m; simpl; try lia.
  destruct (is_leap y); lia.
Qed.

Lemma fits_int_spec (z : Z) : fits_int z = true <-> INT_MIN <= z <= INT_MAX.
Proof. unfold fits_int. rewrite andb_true_iff. lia. Qed.

Lemma fits_int_small (z : Z) : -1 <= z <= 10000 -> fits_int z = true.
Proof. intros Hz. apply fits_int_spec. unfold INT_MIN, INT_MAX. lia. Qed.

Lemma date_new_ok (y m d : Z) :
  valid_year y -> 1 <= m <= 12 -> 1 <= d <= days_in_month y m ->
  date_new y m d = ok (Date y m d).
Proof.
  unfold valid_year, date_new. intros Hy Hm Hd.
  pose proof (days_in_month_le y m) as Hle.
  rewrite !fits_int_small by (unfold MINYEAR, MAXYEAR in *; lia). cbn [andb negb].
  replace ((MINYEAR <=? y) && (y <=? MAXYEAR)) with true by (symmetry; apply andb_true_iff; lia).
  replace ((1 <=? m) && (m <=? 12)) with true by (symmetry; apply andb_true_iff; lia).
  replace ((1 <=? d) && (d <=? days_in_month y m)) with true
    by (symmetry; apply andb_true_iff; lia).
  done.
Qed.

Lemma date_new_inv (y m d : Z) (dt : date) :
  date_new y m d = ok dt ->
  dt = Date y m d /\ valid_year y /\ 1 <= m <= 12 /\ 1 <= d <= days_in_month y m.
Proof.
  unfold valid_year, date_new.
  destruct (fits_int y && fits_int m && fits_int d); simpl; [|discriminate].
  destruct ((MINYEAR <=? y) && (y <=? MAXYEAR)) eqn:Hy; simpl; [|discriminate].
  destruct ((1 <=? m) && (m <=? 12)) eqn:Hm; simpl; [|discriminate].
  destruct ((1 <=? d) && (d <=? days_in_month y m)) eqn:Hd; simpl; [|discriminate].
  apply andb_true_iff in Hy, Hm, Hd. intros [= <-]. repeat split; lia.
Qed.

(** The class of the exception tells whether the arguments fit. *)
Lemma date_new_error (y m d : Z) (e : exn) :
  date_new y m d = inl e ->
  (e = OverflowError /\ fits_int y && fits_int m && fits_int d = false) \/
  (e = ValueError /\ fits_int y && fits_int m && fits_int d = true).
Proof.
  unfold date_new, raise, ok. intros H.
  destruct (fits_int y && fits_int m && fits_int d); simpl in H.
  - right. split; [|done].
    repeat match type of H with context [if ?b then _ else _] => destruct b end;
      simpl in H; congruence.
  - left. split; [congruence|done].
Qed.

Lemma date_new_day31 (y m : Z) (dt : date) :
  date_new y m 31 = ok dt -> has_31_days m = true.
Proof.
  intros (_ & _ & Hm & Hd)%date_new_inv.
  apply (days_in_month_31 y m Hm). pose proof (days_in_month_le y m). lia.
Qed.


Lemma builders_agree : Original._month_limited_date_ranges = Scripts._month_limited_date_ranges.
Proof. reflexivity. Qed.

Section Builder.
Variable months : Z * Z.

Let body (y : Z) (ranges : list (string * string)) : result (list (string * string)) :=
  let* d1 := date_new y (fst months) 1 in
  let start := isoformat d1 in
  let* d2 := date_new y (snd months) 31 in
  let end_ := isoformat d2 in
  ok (ranges ++ [(start, end_)]).

Lemma turn_returns y ranges :
  valid_year y -> months_accepted months ->
  body y ranges = ok (ranges ++ [window months y]).
Proof.
  intros Hy [Hm0 Hm1]. unfold body.
  rewrite date_new_ok; [simpl|done..|].
  - rewrite date_new_ok; [done|done|by apply has_31_days_range|].
    pose proof (has_31_days_range _ Hm1) as Hr.
    apply (days_in_month_31 y) in Hm1; [lia|done].
  - pose proof (days_in_month_ge y _ Hm0). lia.
Qed.

Lemma turn_inv y ranges r :
  body y ranges = ok r ->
  r = ranges ++ [window months y] /\ valid_year y /\ months_accepted months.
Proof.
  unfold body. destruct (date_new y (fst months) 1) as [e|d1] eqn:H1; simpl; [done|].
  destruct (date_new y (snd months) 31) as [e|d2] eqn:H2; simpl; [done|].
  intros [= <-].
  pose proof (date_new_day31 _ _ _ H2) as H31.
  apply date_new_inv in H1 as (-> & Hy & Hm & _).
  apply date_new_inv in H2 as (-> & _ & _ & _).
  done.
Qed.

Lemma accepted_no_overflow y :
  -1 <= y <= 10000 -> months_accepted months -> ~ date_overflows y months.
Proof.
  intros Hy [Hm0 Hm1] Ho. apply has_31_days_range in Hm1.
  destruct Ho as [Ho|[Ho|(_ & _ & Ho)]];
    rewrite fits_int_small in Ho by lia; discriminate.
Qed.

Lemma turn_error y ranges e :
  body y ranges = inl e ->
  (e = ValueError \/ e = OverflowError) /\
  (e = OverflowError <-> date_overflows y months).
Proof.
  unfold body, date_overflows.
  destruct (date_new y (fst months) 1) as [e1|d1] eqn:H1; simpl.
  - intros [= <-]. destruct (date_new_error _ _ _ _ H1) as [[-> Hf]|[-> Hf]].
    + split; [by right|]. split; [intros _|done].
      change (fits_int 1) with true in Hf. rewrite andb_true_r in Hf.
      apply andb_false_iff in Hf. tauto.
    + split; [by left|]. split; [done|].
      change (fits_int 1) with true in Hf. rewrite andb_true_r in Hf.
      apply andb_true_iff in Hf as [Hy Hm].
      intros [Ho|[Ho|(Hvy & Hvm & _)]]; [congruence..|].
      rewrite date_new_ok in H1; [done|done|done|].
      pose proof (days_in_month_ge y _ Hvm). lia.
  - apply date_new_inv in H1 as (_ & Hvy & Hvm & _).
    assert (fits_int y = true) as Hy
      by (apply fits_int_small; unfold valid_year, MINYEAR, MAXYEAR in Hvy; lia).
    assert (fits_int (fst months) = true) as Hm by (apply fits_int_small; lia).
    destruct (date_new y (snd months) 31) as [e2|d2] eqn:H2; simpl; [|done].
    intros [= <-]. destruct (date_new_error _ _ _ _ H2) as [[-> Hf]|[-> Hf]].
    + split; [by right|]. split; [intros _|done].
      change (fits_int 31) with true in Hf. rewrite andb_true_r, Hy in Hf.
      simpl in Hf. tauto.
    + split; [by left|]. split; [done|].
      change (fits_int 31) with true in Hf. rewrite andb_true_r, Hy in Hf.
      simpl in Hf. intros [Ho|[Ho|(_ & _ & Ho)]]; congruence.
Qed.

Lemma turns_return ys acc :
  Forall valid_year ys -> months_accepted months ->
  for_result ys body acc = ok (acc ++ (window months <$> ys)).
Proof.
  intros Hys Hm. revert acc.
  induction Hys as [|y ys Hy _ IH]; intros acc; simpl.
  - by rewrite app_nil_r.
  - rewrite turn_returns by done. simpl. rewrite IH. by rewrite <- app_assoc.
Qed.

Lemma turns_inv ys acc ws :
  for_result ys body acc = ok ws ->
  ws = acc ++ (window months <$> ys) /\ Forall valid_year ys /\
  (ys <> [] -> months_accepted months).
Proof.
  revert acc. induction ys as [|y ys IH]; intros acc; simpl.
  - intros [= <-]. by rewrite app_nil_r.
  - destruct (body y acc) as [e|acc'] eqn:Hb; simpl; [done|].
    apply turn_inv in Hb as (-> & Hy & Hm).
    intros (-> & Hys & _)%IH. rewrite <- app_assoc.
    split; [done|]. split; [by constructor|done].
Qed.

(** Behind an accepted year the loop meets years that fit only: it stops
    at the year after [MAXYEAR]. *)
Lemma turns_error (n : nat) lo acc e :
  months_accepted months -> MINYEAR <= lo <= MAXYEAR + 1 ->
  for_result (seqZ lo (Z.of_nat n)) body acc = inl e -> e = ValueError.
Proof.
  intros Hm. revert lo acc. induction n as [|n IH]; intros lo acc Hlo; [done|].
  rewrite seqZ_cons by lia. cbn [for_result].
  destruct (body lo acc) as [e'|acc'] eqn:Hb; simpl.
  - intros [= <-]. apply turn_error in Hb as [[->| ->] Ho]; [done|].
    destruct (accepted_no_overflow lo) as []; [|done|by apply Ho].
    unfold MINYEAR, MAXYEAR in Hlo. lia.
  - apply turn_inv in Hb as (_ & Hy & _).
    replace (Z.pred (Z.of_nat (S n))) with (Z.of_nat n) by lia.
    apply IH. unfold valid_year in Hy. lia.
Qed.

Lemma builder_returns sy ey :
  MINYEAR <= sy -> ey <= MAXYEAR -> months_accepted months ->
  Scripts._month_limited_date_ranges sy ey months
  = ok (window months <$> range sy (ey + 1)).
Proof.
  intros Hs He Hm. unfold Scripts._month_limited_date_ranges.
  change (for_result (range sy (ey + 1)) body [] = ok (window months <$> range sy (ey + 1))).
  rewrite turns_return; [done| |done].
  apply Forall_seqZ. unfold valid_year. lia.
Qed.

Lemma builder_inv sy ey ws :
  Scripts._month_limited_date_ranges sy ey months = ok ws ->
  ws = window months <$> range sy (ey + 1) /\
  (sy <= ey -> MINYEAR <= sy /\ ey <= MAXYEAR /\ months_accepted months).
Proof.
  unfold Scripts._month_limited_date_ranges.
  change (for_result (range sy (ey + 1)) body [] = ok ws -> ws = window months <$> range sy (ey + 1) /\
  (sy <= ey -> MINYEAR <= sy /\ ey <= MAXYEAR /\ months_accepted months)).
  intros (-> & Hys & Hm)%turns_inv. split; [done|]. intros Hle.
  unfold range in *. rewrite Forall_seqZ in Hys. unfold valid_year in Hys.
  pose proof (Hys sy ltac:(lia)). pose proof (Hys ey ltac:(lia)).
  repeat split; try lia; apply Hm; rewrite seqZ_cons by lia; done.
Qed.

Lemma builder_error sy ey e :
  Scripts._month_limited_date_ranges sy ey months = inl e ->
  sy <= ey /\ (e = ValueError \/ e = OverflowError) /\
  (e = OverflowError <-> date_overflows sy months).
Proof.
  unfold Scripts._month_limited_date_ranges.
  change (for_result (range sy (ey + 1)) body [] = inl e ->
          sy <= ey /\ (e = ValueError \/ e = OverflowError) /\
          (e = OverflowError <-> date_overflows sy months)).
  unfold range. destruct (decide (sy <= ey)) as [Hle|Hgt];
    [|by rewrite seqZ_nil by lia].
  rewrite seqZ_cons by lia. cbn [for_result].
  destruct (body sy []) as [e'|acc'] eqn:Hb; simpl.
  - intros [= <-]. split; [done|]. by eapply turn_error.
  - apply turn_inv in Hb as (_ & Hy & Hm).
    replace (Z.pred (ey + 1 - sy)) with (Z.of_nat (Z.to_nat (ey - sy))) by lia.
    intros ->%turns_error; [|done|unfold valid_year in Hy; lia].
    split; [done|]. split; [by left|]. split; [done|]. intros Ho.
    destruct (accepted_no_overflow sy) as []; [|done..].
    unfold valid_year, MINYEAR, MAXYEAR in Hy. lia.
Qed.

Lemma builder_empty sy ey :
  ey < sy -> Scripts._month_limited_date_ranges sy ey months = ok [].
Proof.
  intros Hlt. unfold Scripts._month_limited_date_ranges, range.
  by rewrite seqZ_nil by lia.
Qed.

End Builder.

(** ** ISO strings of one year compare like their dates *)

Lemma compare_app_prefix (p a b : string) :
  String.compare (p +:+ a) (p +:+ b) = String.compare a b.
Proof.
  induction p as [|c p IH]; simpl; [done|].
  unfold Ascii.compare. by rewrite N.compare_refl.
Qed.

Lemma window_iso_le (y m0 m1 : Z) :
  1 <= m0 -> m0 <= m1 -> m1 <= 12 ->
  String.leb (isoformat (Date y m0 1)) (isoformat (Date y m1 31)) = true.
Proof.
  intros H1 H2 H3. unfold String.leb, isoformat. simpl year; simpl month; simpl day.
  rewrite compare_app_prefix.
  each_month m0; each_month m1; solve [lia | reflexivity].
Qed.

Lemma window_dates_valid (months : Z * Z) (y : Z) :
  valid_year y -> months_accepted months ->
  valid_date (Date y (fst months) 1) /\ valid_date (Date y (snd months) 31) /\
  days_in_month y (snd months) = 31.
Proof.
  intros Hy [Hm0 Hm1]. pose proof (has_31_days_range _ Hm1) as Hr.
  pose proof (proj2 (days_in_month_31 y _ Hr) Hm1) as Hd.
  pose proof (days_in_month_ge y _ Hm0).
  repeat split; try done; unfold valid_date; simpl; apply date_new_ok; (done || lia).
Qed.

(** ** The claims on the date-window builder *)




(** A year that does not fit a C [int] is refused with [OverflowError],
    before the month is looked at. *)
Lemma builder_huge_year_overflows :
  Original._month_limited_date_ranges 2147483648 2147483648 (5, 6) = raise OverflowError /\
  Scripts._month_limited_date_ranges 2019 2019 (2147483648, 6) = raise OverflowError.
Proof. split; reflexivity. Qed.

(** C3, as stated, fails, in two ways.  A year outside [MINYEAR..MAXYEAR]
    is an [int] like any other, and [datetime.date] refuses it: for
    [0 <= 0] and the months [(5, 8)] no window comes back.  And a month pair
    the builder accepts need not be in order: for the months [(8, 5)] the
    window of 2019 starts in August and ends in May. *)
Lemma builder_year_zero_or_months_swapped :
  (0 <= 0 /\ months_accepted (5, 8) /\
   Original._month_limited_date_ranges 0 0 (5, 8) = raise ValueError /\
   Scripts._month_limited_date_ranges 0 0 (5, 8) = raise ValueError /\
   ~ (exists ws, Scripts._month_limited_date_ranges 0 0 (5, 8) = ok ws /\
                 Z.of_nat (length ws) = 0 - 0 + 1)) /\
  (2019 <= 2019 /\ months_accepted (8, 5) /\
   Original._month_limited_date_ranges 2019 2019 (8, 5)
   = ok [("2019-08-01", "2019-05-31")] /\
   Scripts._month_limited_date_ranges 2019 2019 (8, 5)
   = ok [(isoformat (Date 2019 8 1), isoformat (Date 2019 5 31))] /\
   ~ date_le (Date 2019 8 1) (Date 2019 5 31) /\
   String.leb "2019-08-01" "2019-05-31" = false).
Proof.
  split.
  - split; [lia|]. split; [by split|]. split; [done|]. split; [done|].
    intros (ws & Hws & _). discriminate Hws.
  - split; [lia|]. split; [by split|]. split; [by vm_compute|]. split; [by vm_compute|].
    split; [|done]. unfold date_le. simpl. lia.
Qed.

(** C3, amended: for [MINYEAR <= start_year <= end_year <= MAXYEAR] and a
    month pair [m0 <= m1] within [1..12] whose end month has 31 days, both
    copies return exactly [end_year - start_year + 1] windows; the [i]-th
    one holds the ISO strings of two dates of year [start_year + i], the
    first not after the second (as dates and as strings). *)
Theorem builder_one_window_per_year (start_year end_year : Z) (months : Z * Z) :
  MINYEAR <= start_year -> start_year <= end_year -> end_year <= MAXYEAR ->
  1 <= fst months -> fst months <= snd months -> has_31_days (snd months) = true ->
  exists ws,
    Original._month_limited_date_ranges start_year end_year months = ok ws /\
    Scripts._month_limited_date_ranges start_year end_year months = ok ws /\
    Z.of_nat (length ws) = end_year - start_year + 1 /\
    forall i : nat, (i < length ws)%nat ->
      exists d1 d2,
        ws !! i = Some (isoformat d1, isoformat d2) /\
        valid_date d1 /\ valid_date d2 /\
        year d1 = start_year + Z.of_nat i /\ year d2 = start_year + Z.of_nat i /\
        date_le d1 d2 /\
        String.leb (isoformat d1) (isoformat d2) = true.
Proof.
  intros Hs Hle He Hm0 Hm01 Hm1.
  pose proof (has_31_days_range _ Hm1) as Hr.
  assert (months_accepted months) as Hacc by (split; [lia|done]).
  exists (window months <$> range start_year (end_year + 1)).
  rewrite builders_agree, builder_returns by done.
  split; [done|]. split; [done|].
  rewrite length_fmap. unfold range. rewrite length_seqZ.
  split; [lia|]. intros i Hi.
  set (y := start_year + Z.of_nat i).
  assert (valid_year y) as Hy by (unfold valid_year, y; lia).
  destruct (window_dates_valid months y Hy Hacc) as (Hv1 & Hv2 & _).
  exists (Date y (fst months) 1), (Date y (snd months) 31).
  rewrite list_lookup_fmap, lookup_seqZ_lt by lia.
  repeat split; try done.
  - right. simpl. split; [done|]. lia.
  - apply window_iso_le; lia.
Qed.

Lemma builder_one_window_per_year_witness :
  exists ws,
    Original._month_limited_date_ranges 2019 2021 (5, 8) = ok ws /\
    Scripts._month_limited_date_ranges 2019 2021 (5, 8) = ok ws /\
    Z.of_nat (length ws) = 2021 - 2019 + 1 /\
    forall i : nat, (i < length ws)%nat ->
      exists d1 d2,
        ws !! i = Some (isoformat d1, isoformat d2) /\
        valid_date d1 /\ valid_date d2 /\
        year d1 = 2019 + Z.of_nat i /\ year d2 = 2019 + Z.of_nat i /\
        date_le d1 d2 /\
        String.leb (isoformat d1) (isoformat d2) = true.
Proof.
  apply (builder_one_window_per_year 2019 2021 (5, 8));
    unfold MINYEAR, MAXYEAR; simpl; (lia || reflexivity).
Defined.

(** C4: whenever the builder returns, the window of every year [y] of the
    range starts on day 1 of the start month of [y] and ends on day 31 of
    the end month of [y], which is that month's last day; and the years
    2019 to 2021 with the months [(5, 8)] give exactly the three windows
    May 1 to August 31. *)
Theorem builder_window_bounds :
  (forall (start_year end_year : Z) (months : Z * Z) (ws : list (string * string)) (y : Z),
      Original._month_limited_date_ranges start_year end_year months = ok ws \/
      Scripts._month_limited_date_ranges start_year end_year months = ok ws ->
      start_year <= y <= end_year ->
      ws !! Z.to_nat (y - start_year)
      = Some (isoformat (Date y (fst months) 1), isoformat (Date y (snd months) 31)) /\
      valid_date (Date y (fst months) 1) /\
      valid_date (Date y (snd months) 31) /\
      days_in_month y (snd months) = 31) /\
  Original._month_limited_date_ranges 2019 2021 (5, 8)
  = ok [("2019-05-01", "2019-08-31"); ("2020-05-01", "2020-08-31");
        ("2021-05-01", "2021-08-31")] /\
  Scripts._month_limited_date_ranges 2019 2021 (5, 8)
  = ok [("2019-05-01", "2019-08-31"); ("2020-05-01", "2020-08-31");
        ("2021-05-01", "2021-08-31")].
Proof.
  split; [|split; vm_compute; reflexivity].
  intros sy ey months ws y Hws Hy.
  rewrite builders_agree in Hws.
  assert (Scripts._month_limited_date_ranges sy ey months = ok ws) as H by tauto.
  apply builder_inv in H as [-> Hv]. destruct (Hv ltac:(lia)) as (Hs & He & Hacc).
  assert (valid_year y) as Hvy by (unfold valid_year; lia).
  split; [|by apply window_dates_valid].
  unfold range. rewrite list_lookup_fmap, lookup_seqZ_lt by lia.
  simpl. by replace (sy + Z.of_nat (Z.to_nat (y - sy))) with y by lia.
Qed.

Lemma builder_window_bounds_witness :
  [("2019-05-01", "2019-08-31"); ("2020-05-01", "2020-08-31");
   ("2021-05-01", "2021-08-31")] !! Z.to_nat (2020 - 2019)
  = Some (isoformat (Date 2020 5 1), isoformat (Date 2020 8 31)) /\
  valid_date (Date 2020 5 1) /\ valid_date (Date 2020 8 31) /\
  days_in_month 2020 8 = 31.
Proof.
  apply (proj1 builder_window_bounds 2019 2021 (5, 8) _ 2020);
    [right; vm_compute; reflexivity | lia].
Defined.

(** ** The order [<] on values of one kind *)

Lemma string_compare_refl (s : string) : String.compare s s = Eq.
Proof.
  induction s as [|c s IH]; simpl; [done|].
  unfold Ascii.compare. by rewrite N.compare_refl.
Qed.

Lemma string_compare_lt_trans (a b c : string) :
  String.compare a b = Lt -> String.compare b c = Lt -> String.compare a c = Lt.
Proof.
  revert b c. induction a as [|x a IH]; intros [|y b] [|z c]; simpl; try done.
  unfold Ascii.compare.
  destruct (N.compare_spec (N_of_ascii x) (N_of_ascii y)) as [Hxy|Hxy|Hxy]; try done;
  destruct (N.compare_spec (N_of_ascii y) (N_of_ascii z)) as [Hyz|Hyz|Hyz]; try done;
  intros H1 H2.
  - rewrite Hxy, Hyz, N.compare_refl. by eapply IH.
  - rewrite Hxy. by apply N.compare_lt_iff in Hyz as ->.
  - rewrite <- Hyz. by apply N.compare_lt_iff in Hxy as ->.
  - assert (N_of_ascii x < N_of_ascii z)%N as Hxz by lia.
    by apply N.compare_lt_iff in Hxz as ->.
Qed.

Lemma string_ltb_irrefl (s : string) : String.ltb s s = false.
Proof. unfold String.ltb. by rewrite string_compare_refl. Qed.

Lemma string_ltb_asym (a b : string) : String.ltb a b = true -> String.ltb b a = false.
Proof.
  unfold String.ltb. rewrite (String.compare_antisym a b).
  by destruct (String.compare b a).
Qed.

Lemma string_ltb_le_trans (a b c : string) :
  String.ltb a b = true -> String.ltb c b = false -> String.ltb a c = true.
Proof.
  unfold String.ltb. intros Hab Hcb.
  destruct (String.compare a b) eqn:H1; try done.
  destruct (String.compare c b) eqn:H2; try done.
  - apply String.compare_eq_iff in H2 as ->. by rewrite H1.
  - rewrite String.compare_antisym in H2.
    destruct (String.compare b c) eqn:H3; try done.
    by rewrite (string_compare_lt_trans a b c).
Qed.

Lemma py_lt_defined (a b : pyval) (k : kind) :
  kind_of a = Some k -> kind_of b = Some k -> exists r, py_lt a b = ok r.
Proof. destruct a, b; simpl; intros; simplify_eq; eauto. Qed.

Lemma py_lt_kind (a b : pyval) (r : bool) :
  py_lt a b = ok r -> exists k, kind_of a = Some k /\ kind_of b = Some k.
Proof. destruct a, b; simpl; intros; simplify_eq; eauto. Qed.

Lemma py_lt_error (a b : pyval) (e : exn) : py_lt a b = inl e -> e = TypeError.
Proof. destruct a, b; simpl; unfold raise, ok; congruence. Qed.

Lemma py_lt_irrefl (a : pyval) : py_lt a a <> ok true.
Proof.
  destruct a; simpl; unfold ok; try done; intros [= H].
  - lia.
  - by rewrite string_ltb_irrefl in H.
  - lia.
Qed.

Lemma py_lt_asym (a b : pyval) : py_lt a b = ok true -> py_lt b a = ok false.
Proof.
  destruct a, b; simpl; unfold ok; try done; intros [= H]; f_equal.
  - lia.
  - by apply string_ltb_asym.
  - lia.
Qed.

Lemma py_lt_le_trans (a b c : pyval) :
  py_lt a b = ok true -> py_lt c b = ok false -> py_lt a c = ok true.
Proof.
  destruct a, b, c; simpl; unfold ok; try done; intros [= H1] [= H2]; f_equal.
  - lia.
  - by eapply string_ltb_le_trans.
  - lia.
Qed.

Lemma string_ltb_antisym (a b : string) :
  String.ltb a b = false -> String.ltb b a = false -> a = b.
Proof.
  unfold String.ltb. rewrite (String.compare_antisym a b).
  destruct (String.compare b a) eqn:H; simpl; try done.
  intros _ _. symmetry. by apply String.compare_eq_iff.
Qed.

Lemma py_lt_antisym (a b : pyval) :
  py_lt a b = ok false -> py_lt b a = ok false -> a = b.
Proof.
  destruct a, b; simpl; unfold ok; try done; intros [= H1] [= H2]; f_equal.
  - lia.
  - by apply string_ltb_antisym.
  - lia.
Qed.

(** ** The stable sort *)

Section SortFacts.
Context {A : Type} (key : A -> pyval).

(** [a] may stand before [b] in an ascending list. *)
Let asc (a b : A) : Prop := py_lt (key b) (key a) = ok false.
Let of_kind (k : kind) (x : A) : Prop := kind_of (key x) = Some k.

Lemma insort_Permutation x run s : insort key x run = ok s -> s ≡ₚ x :: run.
Proof.
  revert s. induction run as [|y run IH]; intros s; simpl.
  - by intros [= <-].
  - destruct (py_lt (key x) (key y)) as [e|[]]; simpl; try done.
    + by intros [= <-].
    + destruct (insort key x run) as [e|r]; simpl; try done.
      intros [= <-]. rewrite (IH r eq_refl). apply Permutation_swap.
  Qed.

Lemma sort_loop_Permutation l run s :
  for_result l (insort key) run = ok s -> s ≡ₚ run ++ l.
Proof.
  revert run. induction l as [|x l IH]; intros run; simpl.
  - intros [= <-]. by rewrite app_nil_r.
  - destruct (insort key x run) as [e|r] eqn:Hi; simpl; try done.
    intros ->%IH. apply insort_Permutation in Hi. rewrite Hi.
    by rewrite <- Permutation_middle.
Qed.

(** The place [insort] finds: behind a prefix of elements not greater
    than [x], before an element greater than [x] if there is one. *)
Lemma insort_split k x run :
  of_kind k x -> Forall (of_kind k) run ->
  exists r1 r2,
    run = r1 ++ r2 /\ insort key x run = ok (r1 ++ x :: r2) /\
    Forall (fun y => asc y x) r1 /\
    (forall y, head r2 = Some y -> py_lt (key x) (key y) = ok true).
Proof.
  intros Hx Hrun. induction Hrun as [|y run Hy Hrun IH]; simpl.
  - exists [], []. by repeat split.
  - destruct (py_lt_defined (key x) (key y) k Hx Hy) as [[] Hlt]; rewrite Hlt; simpl.
    + exists [], (y :: run). repeat split; [done|]. by intros ? [= <-].
    + destruct IH as (r1 & r2 & -> & -> & H1 & H2). simpl.
      exists (y :: r1), r2. repeat split; [|done]. by constructor.
Qed.

Lemma insort_spec k x run :
  of_kind k x -> Forall (of_kind k) run -> StronglySorted asc run ->
  exists r1 r2,
    run = r1 ++ r2 /\ insort key x run = ok (r1 ++ x :: r2) /\
    Forall (fun y => asc y x) r1 /\
    Forall (fun y => py_lt (key x) (key y) = ok true) r2.
Proof.
  intros Hx Hrun Hs.
  destruct (insort_split k x run Hx Hrun) as (r1 & r2 & -> & Hi & H1 & H2).
  exists r1, r2. repeat split; try done.
  apply StronglySorted_app_1_r in Hs.
  destruct r2 as [|y r2]; [done|].
  pose proof (H2 y eq_refl) as Hxy.
  apply StronglySorted_cons in Hs as [Hy _].
  constructor; [done|].
  eapply Forall_impl; [exact Hy|]. intros z Hz. by eapply py_lt_le_trans.
Qed.

Lemma insort_sorted k x run s :
  of_kind k x -> Forall (of_kind k) run -> StronglySorted asc run ->
  insort key x run = ok s -> StronglySorted asc s.
Proof.
  intros Hx Hrun Hs Hi.
  destruct (insort_spec k x run Hx Hrun Hs) as (r1 & r2 & -> & Hi' & H1 & H2).
  rewrite Hi' in Hi. injection Hi as <-.
  apply StronglySorted_app in Hs as (H12 & Hs1 & Hs2).
  apply StronglySorted_app_2; [|done|].
  - intros y z Hy [->|Hz]%elem_of_cons.
    + by eapply (proj1 (Forall_forall _ _) H1).
    + by apply H12.
  - apply StronglySorted_cons. split; [|done].
    eapply Forall_impl; [exact H2|]. intros z Hz. by apply py_lt_asym.
Qed.

Lemma insort_filter k x run s v :
  of_kind k x -> Forall (of_kind k) run -> StronglySorted asc run ->
  insort key x run = ok s ->
  filter (fun y => key y = v) s = filter (fun y => key y = v) (run ++ [x]).
Proof.
  intros Hx Hrun Hs Hi.
  destruct (insort_spec k x run Hx Hrun Hs) as (r1 & r2 & -> & Hi' & H1 & H2).
  rewrite Hi' in Hi. injection Hi as <-.
  rewrite !filter_app, !filter_cons, filter_nil.
  destruct (decide (key x = v)) as [Hv|Hv]; [|by rewrite app_nil_r].
  assert (filter (fun y => key y = v) r2 = []) as ->; [|by rewrite !app_nil_r].
  clear -H2 Hv. induction H2 as [|y r2 Hy _ IH]; [done|].
  rewrite filter_cons. destruct (decide (key y = v)) as [Hyv|_]; [|done].
  exfalso. rewrite Hyv, <- Hv in Hy. by apply py_lt_irrefl in Hy.
Qed.

Lemma sort_loop_spec k l run :
  Forall (of_kind k) (run ++ l) -> StronglySorted asc run ->
  exists s,
    for_result l (insort key) run = ok s /\
    StronglySorted asc s /\
    forall v, filter (fun y => key y = v) s = filter (fun y => key y = v) (run ++ l).
Proof.
  revert run. induction l as [|x l IH]; intros run Hk Hs; simpl.
  - exists run. rewrite app_nil_r. by repeat split.
  - apply Forall_app in Hk as [Hrun [Hx Hl]%Forall_cons].
    destruct (insort_spec k x run Hx Hrun Hs) as (r1 & r2 & Hr & Hi & _).
    rewrite Hi. simpl.
    pose proof (insort_Permutation _ _ _ Hi) as Hp.
    destruct (IH (r1 ++ x :: r2)) as (s & Hloop & Hss & Hf).
    + apply Forall_app. split; [|done]. rewrite Hp. by constructor.
    + exact (insort_sorted k x run _ Hx Hrun Hs Hi).
    + exists s. repeat split; try done. intros v. rewrite Hf.
      rewrite (filter_app _ (r1 ++ x :: r2) l).
      rewrite (insort_filter k x run _ v Hx Hrun Hs Hi).
      by rewrite <- filter_app, <- app_assoc.
Qed.

(** An ascending list comes back from the sort as it went in. *)
Lemma sort_loop_sorted l run :
  StronglySorted asc (run ++ l) -> for_result l (insort key) run = ok (run ++ l).
Proof.
  revert run. induction l as [|x l IH]; intros run Hs; simpl.
  - by rewrite app_nil_r.
  - assert (insort key x run = ok (run ++ [x])) as ->.
    { apply StronglySorted_app in Hs as (H12 & _ & _).
      assert (forall y, y ∈ run -> asc y x) as Hx by (intros; apply H12; set_solver).
      clear -Hx. induction run as [|y run IH]; simpl; [done|].
      rewrite (Hx y) by set_solver. simpl. rewrite IH; [done|].
      intros; apply Hx; set_solver. }
    simpl. rewrite IH; rewrite <- app_assoc; done.
Qed.

(** A sort that returns has seen keys of one kind, unless there were
    fewer than two of them. *)
Lemma sort_loop_kind l run s :
  for_result l (insort key) run = ok s ->
  (exists k, Forall (of_kind k) run) ->
  (length (run ++ l) <= 1)%nat \/ exists k, Forall (of_kind k) (run ++ l).
Proof.
  revert run. induction l as [|x l IH]; intros run; simpl.
  - intros _ Hk. right. by rewrite app_nil_r.
  - destruct (insort key x run) as [e|r] eqn:Hi; simpl; try done.
    intros Hloop [k Hk].
    assert (run = [] \/ of_kind k x) as Hx.
    { destruct run as [|y run]; [by left|right].
      simpl in Hi. destruct (py_lt (key x) (key y)) as [e|b] eqn:Hlt; [done|].
      apply py_lt_kind in Hlt as (k' & Hkx & Hky).
      apply Forall_cons in Hk as [Hy _]. unfold of_kind in *. congruence. }
    pose proof (insort_Permutation _ _ _ Hi) as Hp.
    destruct Hx as [->|Hx].
    + simpl in Hi. injection Hi as <-.
      destruct (kind_of (key x)) as [kx|] eqn:Hkx.
      * destruct (IH [x] Hloop) as [Hlen|[k' Hk']];
          [by exists kx; repeat constructor|left; done|right; by exists k'].
      * assert (key x = VNone) as Hnone by (by destruct (key x)).
        destruct l as [|y l]; [left; simpl; lia|].
        exfalso. cbn [for_result insort] in Hloop. rewrite Hnone in Hloop.
        by destruct (key y).
    + destruct (IH r Hloop) as [Hlen|[k' Hk']].
      * exists k. rewrite Hp. by constructor.
      * left. rewrite length_app in Hlen. rewrite Hp in Hlen.
        rewrite length_app. simpl in *. lia.
      * right. exists k'. rewrite Forall_app in *. rewrite Hp in Hk'.
        destruct Hk' as [[? ?]%Forall_cons ?]. split; [done|]. by constructor.
Qed.
End SortFacts.

Lemma StronglySorted_reverse {A} (R : relation A) (l : list A) :
  StronglySorted R l -> StronglySorted (flip R) (reverse l).
Proof.
  induction 1 as [|x l Hl IH Hx]; [constructor|].
  rewrite reverse_cons. apply StronglySorted_app_2; [|done|repeat constructor].
  intros y z Hy ->%list_elem_of_singleton. rewrite elem_of_reverse in Hy.
  by apply (proj1 (Forall_forall _ _) Hx).
Qed.

Section ListSortFacts.
Context {A : Type} (key : A -> pyval).

Lemma list_sort_one_kind (k : kind) (l : list A) :
  Forall (fun x => kind_of (key x) = Some k) l ->
  exists s,
    list_sort key true l = ok s /\
    s ≡ₚ l /\
    StronglySorted (fun a b => py_lt (key a) (key b) = ok false) s /\
    forall v, filter (fun x => key x = v) s = filter (fun x => key x = v) l.
Proof.
  intros Hk. unfold list_sort, sort_asc.
  destruct (sort_loop_spec key k (reverse l) []) as (s & Hs & Hsorted & Hf).
  { simpl. by rewrite Forall_reverse. }
  { constructor. }
  rewrite Hs. simpl. exists (reverse s). split; [done|]. split; [|split].
  - rewrite reverse_Permutation. apply sort_loop_Permutation in Hs.
    by rewrite Hs, reverse_Permutation.
  - by apply StronglySorted_reverse in Hsorted.
  - intros v. rewrite filter_reverse, Hf. simpl.
    by rewrite filter_reverse, reverse_involutive.
Qed.

(** Descending order and stability leave no choice: two lists in
    descending order with the same elements of every key, in the same
    order, are equal.  So any stable sort returns what [list_sort]
    returns. *)
Lemma stable_descending_unique (s1 s2 : list A) :
  StronglySorted (fun a b => py_lt (key a) (key b) = ok false) s1 ->
  StronglySorted (fun a b => py_lt (key a) (key b) = ok false) s2 ->
  (forall v, filter (fun x => key x = v) s1 = filter (fun x => key x = v) s2) ->
  s1 = s2.
Proof.
  intros H1. revert s2. induction H1 as [|x s1 Hs1 IH Hx]; intros s2 H2 Hf.
  - destruct s2 as [|y s2]; [done|].
    specialize (Hf (key y)). rewrite filter_nil, filter_cons_True in Hf; done.
  - destruct H2 as [|y s2 Hs2 Hy].
    { specialize (Hf (key x)). rewrite filter_nil, filter_cons_True in Hf; done. }
    assert (key y = key x) as Hk.
    { destruct (decide (key y = key x)) as [|Hne]; [done|exfalso].
      apply Hne. apply py_lt_antisym.
      - assert (x ∈ s2) as Hin; [|by apply (proj1 (Forall_forall _ _) Hy)].
        assert (x ∈ filter (fun z => key z = key x) (y :: s2)) as Hin
          by (rewrite <- Hf, filter_cons_True by done; left).
        apply list_elem_of_filter in Hin as [_ Hin].
        apply elem_of_cons in Hin as [->|Hin]; done.
      - assert (y ∈ s1) as Hin; [|by apply (proj1 (Forall_forall _ _) Hx)].
        assert (y ∈ filter (fun z => key z = key y) (x :: s1)) as Hin
          by (rewrite Hf, filter_cons_True by done; left).
        apply list_elem_of_filter in Hin as [_ Hin].
        apply elem_of_cons in Hin as [->|Hin]; done. }
    pose proof (Hf (key x)) as Hfx.
    rewrite filter_cons_True, (filter_cons_True _ y) in Hfx by done.
    injection Hfx as <- Hfx. f_equal. apply IH; [done|].
    intros v. destruct (decide (key x = v)) as [<-|Hne]; [done|].
    specialize (Hf v). by rewrite !filter_cons_False in Hf.
Qed.

Lemma list_sort_unique (k : kind) (l s : list A) :
  Forall (fun x => kind_of (key x) = Some k) l ->
  StronglySorted (fun a b => py_lt (key a) (key b) = ok false) s ->
  (forall v, filter (fun x => key x = v) s = filter (fun x => key x = v) l) ->
  list_sort key true l = ok s.
Proof.
  intros Hk Hs Hf.
  destruct (list_sort_one_kind k l Hk) as (s' & -> & _ & Hs' & Hf').
  f_equal. apply stable_descending_unique; [done|done|].
  intros v. by rewrite Hf, Hf'.
Qed.

Lemma list_sort_short (l : list A) :
  (length l <= 1)%nat -> list_sort key true l = ok l.
Proof. destruct l as [|x [|y l]]; simpl; intros; [reflexivity|reflexivity|lia]. Qed.

Lemma list_sort_returns (l s : list A) :
  list_sort key true l = ok s ->
  (length l <= 1)%nat \/ exists k, Forall (fun x => kind_of (key x) = Some k) l.
Proof.
  unfold list_sort, sort_asc.
  destruct (for_result (reverse l) (insort key) []) as [e|s'] eqn:Hs; [done|].
  intros _. apply sort_loop_kind in Hs as [Hlen|[k Hk]].
  - left. simpl in Hlen. by rewrite length_reverse in Hlen.
  - right. exists k. simpl in Hk. by rewrite Forall_reverse in Hk.
  - exists KInt. constructor.
Qed.

Lemma insort_error (x : A) (run : list A) (e : exn) :
  insort key x run = inl e -> e = TypeError.
Proof.
  induction run as [|y run IH]; simpl; [done|].
  destruct (py_lt (key x) (key y)) as [e'|[]] eqn:Hlt; simpl.
  - intros [= <-]. by eapply py_lt_error.
  - done.
  - destruct (insort key x run); simpl; [|done]. intros [= <-]. by apply IH.
Qed.

Lemma list_sort_error (reverse : bool) (l : list A) (e : exn) :
  list_sort key reverse l = inl e -> e = TypeError.
Proof.
  unfold list_sort, sort_asc.
  generalize (if reverse then list.reverse l else l) as l'.
  generalize (@nil A) as run. intros run l'. revert run.
  induction l' as [|x l' IH]; intros run; simpl; [done|].
  destruct (insort key x run) as [e'|r] eqn:Hi; simpl.
  - intros [= <-]. by eapply insort_error.
  - apply IH.
Qed.

Lemma list_sort_raises (l : list A) :
  (2 <= length l)%nat ->
  ~ (exists k, Forall (fun x => kind_of (key x) = Some k) l) ->
  list_sort key true l = raise TypeError.
Proof.
  intros Hlen Hk. destruct (list_sort key true l) as [e|s] eqn:Hs.
  - by rewrite (list_sort_error _ _ _ Hs).
  - apply list_sort_returns in Hs as [?|?]; [lia|done].
Qed.

Lemma list_sort_sorted (s : list A) :
  StronglySorted (fun a b => py_lt (key a) (key b) = ok false) s ->
  list_sort key true s = ok s.
Proof.
  intros Hs. unfold list_sort, sort_asc.
  apply StronglySorted_reverse in Hs.
  rewrite (sort_loop_sorted key (reverse s) []) by done.
  simpl. by rewrite reverse_involutive.
Qed.

Lemma list_sort_idempotent (l s : list A) :
  list_sort key true l = ok s -> list_sort key true s = ok s.
Proof.
  intros Hs. destruct (list_sort_returns _ _ Hs) as [Hlen|[k Hk]].
  - rewrite list_sort_short in Hs by done. injection Hs as <-.
    by apply list_sort_short.
  - destruct (list_sort_one_kind k l Hk) as (s' & Hs' & _ & Hsorted & _).
    rewrite Hs' in Hs. injection Hs as <-. by apply list_sort_sorted.
Qed.
End ListSortFacts.

(** Ties keep their order, and [ingestiondate] stands in for a missing or
    empty [beginposition]. *)
Example ranker_ties :
  sort_results [1; 2; 3; 4]%positive (init tie_store)
  = (ok [2; 4; 1; 3]%positive, init tie_store).
Proof. by vm_compute. Qed.

(** ** The claims on the result ranker *)

(** C1, as stated, fails: the key of an entry without timestamp is [None],
    which [<] compares with nothing, so that the example [a, b, c] is not
    ranked to [b, c, a]: the sort raises [TypeError]. *)
Lemma ranker_example_raises :
  sort_key example_store entry_a = VNone /\
  sort_key example_store entry_b = VStr "2021-06-01" /\
  sort_key example_store entry_c = VStr "2020-06-01" /\
  sort_results [entry_a; entry_b; entry_c] (init example_store)
  = (raise TypeError, init example_store) /\
  fst (sort_results [entry_a; entry_b; entry_c] (init example_store))
  <> ok [entry_b; entry_c; entry_a].
Proof. repeat split. vm_compute. discriminate. Qed.

(** Two or more entries, one of them without timestamp: the sort raises. *)
Lemma ranker_raises_without_timestamp (st : state) (results : list loc) :
  (2 <= length results)%nat ->
  (exists m, m ∈ results /\ sort_key (st_heap st) m = VNone) ->
  sort_results results st = (raise TypeError, st).
Proof.
  intros Hlen (m & Hm & Hnone). unfold sort_results.
  rewrite list_sort_raises; [done|done|].
  intros [k Hk]. apply (proj1 (Forall_forall _ _) Hk) in Hm.
  by rewrite Hnone in Hm.
Qed.

(** C1, amended: when every entry has a timestamp key ([beginposition], or
    else [ingestiondate]) and the keys are of one kind, the ranker returns
    the entries, all of them, ordered by key descending, entries of equal
    key in their original order; in particular the entries [b] and [c] of
    the example, given as [c, b], rank to [b, c]. *)
Theorem ranker_descending_stable :
  (forall (st : state) (results : list loc) (k : kind),
      Forall (fun m => kind_of (sort_key (st_heap st) m) = Some k) results ->
      exists ranked,
        sort_results results st = (ok ranked, st) /\
        ranked ≡ₚ results /\
        StronglySorted
          (fun a b => py_lt (sort_key (st_heap st) a) (sort_key (st_heap st) b) = ok false)
          ranked /\
        forall v, filter (fun m => sort_key (st_heap st) m = v) ranked
                  = filter (fun m => sort_key (st_heap st) m = v) results) /\
  sort_results [entry_c; entry_b] (init example_store)
  = (ok [entry_b; entry_c], init example_store).
Proof.
  split; [|by vm_compute].
  intros st results k Hk.
  destruct (list_sort_one_kind (sort_key (st_heap st)) k results Hk)
    as (ranked & Hs & Hp & Hsorted & Hf).
  exists ranked. unfold sort_results. by rewrite Hs.
Qed.

Lemma ranker_descending_stable_witness :
  exists ranked,
    sort_results [entry_c; entry_b] (init example_store)
    = (ok ranked, init example_store) /\
    ranked ≡ₚ [entry_c; entry_b] /\
    StronglySorted
      (fun a b => py_lt (sort_key (st_heap (init example_store)) a)
                        (sort_key (st_heap (init example_store)) b) = ok false)
      ranked /\
    forall v, filter (fun m => sort_key (st_heap (init example_store)) m = v) ranked
              = filter (fun m => sort_key (st_heap (init example_store)) m = v)
                       [entry_c; entry_b].
Proof.
  apply (proj1 ranker_descending_stable (init example_store) [entry_c; entry_b] KStr).
  repeat constructor.
Defined.

(** C7: the ranker is idempotent: a sequence it has returned comes back
    unchanged when it is ranked again. *)
Theorem ranker_idempotent (st st' : state) (results ranked : list loc) :
  sort_results results st = (ok ranked, st') ->
  sort_results ranked st' = (ok ranked, st').
Proof.
  unfold sort_results. intros [= Hs <-].
  by rewrite (list_sort_idempotent _ _ _ Hs).
Qed.

Lemma ranker_idempotent_witness :
  sort_results [entry_b; entry_c] (init example_store)
  = (ok [entry_b; entry_c], init example_store).
Proof.
  apply (ranker_idempotent (init example_store) (init example_store)
           [entry_c; entry_b] [entry_b; entry_c]).
  vm_compute. reflexivity.
Defined.

(** ** The loops of the effectful code *)

Lemma for_M_app {A S} (xs ys : list A) (body : A -> S -> M S) (acc : S) (s : state) :
  for_M (xs ++ ys) body acc s
  = match for_M xs body acc s with
    | (inl e, s') => (inl e, s')
    | (inr acc', s') => for_M ys body acc' s'
    end.
Proof.
  revert acc s. induction xs as [|x xs IH]; intros acc s; simpl; [done|].
  unfold bindM. destruct (body x acc s) as [[e|acc'] s']; [done|]. apply IH.
Qed.

(** ** The download loop *)

Lemma download_loops_agree : Original.download_loop = Scripts.download_loop.
Proof. reflexivity. Qed.

Lemma download_products_agree : Original.download_products = Scripts.download_products.
Proof. reflexivity. Qed.

Section Download.
Context (W : world) (api : SentinelAPI) (out_dir : string).

Lemma download_loop_nil acc s :
  Scripts.download_loop W api out_dir [] acc s = (ok acc, s).
Proof. reflexivity. Qed.

Lemma download_loop_app l1 l2 acc s :
  Scripts.download_loop W api out_dir (l1 ++ l2) acc s
  = match Scripts.download_loop W api out_dir l1 acc s with
    | (inl e, s') => (inl e, s')
    | (inr acc', s') => Scripts.download_loop W api out_dir l2 acc' s'
    end.
Proof. apply for_M_app. Qed.

(** The loop body, as the loop has it. *)
Let step (meta : loc) (downloaded : list pyval) : M (list pyval) :=
  uid <- meta_get meta "_uid" ;;
  if negb (truthy uid) then
    r <- meta_repr meta ;;
    logger WARNING "Product metadata missing UID, skipping: %s" [r] ;;
    ret downloaded
  else
    try_except
      (title <- meta_get meta "title" ;;
       logger INFO "Downloading product %s (%s)" [AVal title; AVal uid] ;;
       res <- download W api uid out_dir ;;
       let local_path := match res with
                         | ODict d => dict_get d "path"
                         | OVal v => v
                         end in
       ret (downloaded ++ [local_path]))
      (fun e =>
         logger ERROR "Failed to download product %s: %s" [AVal uid; AExn e] ;;
         ret downloaded).

Lemma download_loop_cons m ms acc s :
  Scripts.download_loop W api out_dir (m :: ms) acc s
  = match step m acc s with
    | (inl e, s') => (inl e, s')
    | (inr acc', s') => Scripts.download_loop W api out_dir ms acc' s'
    end.
Proof. reflexivity. Qed.

Lemma download_step_eq m acc s :
  step m acc s
  = let h := st_heap s in
    let uid := uid_of h m in
    if truthy uid then
      let t' := st_trace s ++ [CallDownload api uid out_dir] in
      match api_download W (st_trace s) api uid out_dir with
      | inr res =>
          (ok (acc ++ [local_path res]),
           State h t' (st_log s ++ [log_downloading h m]))
      | inl e =>
          if is_Exception e
          then (ok acc, State h t' (st_log s ++ [log_downloading h m; log_failed uid e]))
          else (inl e, State h t' (st_log s ++ [log_downloading h m]))
      end
    else (ok acc, State h (st_trace s) (st_log s ++ [log_skip h m])).
Proof.
  unfold step, bindM, meta_get, meta_repr, logger, try_except, download, ret.
  simpl. fold (uid_of (st_heap s) m).
  destruct (truthy (uid_of (st_heap s) m)); simpl; [|done].
  destruct (api_download W (st_trace s) api (uid_of (st_heap s) m) out_dir)
    as [e|res]; simpl.
  - destruct (is_Exception e); [|done]. by rewrite <- app_assoc.
  - done.
Qed.

(** An entry without identifier: one warning, nothing else. *)
Lemma download_loop_skip m ms acc s :
  truthy (uid_of (st_heap s) m) = false ->
  Scripts.download_loop W api out_dir (m :: ms) acc s
  = Scripts.download_loop W api out_dir ms acc
      (State (st_heap s) (st_trace s) (st_log s ++ [log_skip (st_heap s) m])).
Proof.
  intros Hu. rewrite download_loop_cons, download_step_eq. simpl. by rewrite Hu.
Qed.

(** An entry whose download returns: its local path is appended. *)
Lemma download_loop_done m ms acc s res :
  truthy (uid_of (st_heap s) m) = true ->
  api_download W (st_trace s) api (uid_of (st_heap s) m) out_dir = inr res ->
  Scripts.download_loop W api out_dir (m :: ms) acc s
  = Scripts.download_loop W api out_dir ms (acc ++ [local_path res])
      (State (st_heap s)
             (st_trace s ++ [CallDownload api (uid_of (st_heap s) m) out_dir])
             (st_log s ++ [log_downloading (st_heap s) m])).
Proof.
  intros Hu Hd. rewrite download_loop_cons, download_step_eq. simpl.
  by rewrite Hu, Hd.
Qed.

(** An entry whose download raises an [Exception]: the failure is logged
    and the list is left as it was. *)
Lemma download_loop_failed m ms acc s e :
  truthy (uid_of (st_heap s) m) = true ->
  api_download W (st_trace s) api (uid_of (st_heap s) m) out_dir = inl e ->
  is_Exception e = true ->
  Scripts.download_loop W api out_dir (m :: ms) acc s
  = Scripts.download_loop W api out_dir ms acc
      (State (st_heap s)
             (st_trace s ++ [CallDownload api (uid_of (st_heap s) m) out_dir])
             (st_log s ++ [log_downloading (st_heap s) m;
                           log_failed (uid_of (st_heap s) m) e])).
Proof.
  intros Hu Hd He. rewrite download_loop_cons, download_step_eq. simpl.
  by rewrite Hu, Hd, He.
Qed.

(** What [except Exception] lets through ends the loop. *)
Lemma download_loop_aborted m ms acc s e :
  truthy (uid_of (st_heap s) m) = true ->
  api_download W (st_trace s) api (uid_of (st_heap s) m) out_dir = inl e ->
  is_Exception e = false ->
  Scripts.download_loop W api out_dir (m :: ms) acc s
  = (inl e,
     State (st_heap s)
           (st_trace s ++ [CallDownload api (uid_of (st_heap s) m) out_dir])
           (st_log s ++ [log_downloading (st_heap s) m])).
Proof.
  intros Hu Hd He. rewrite download_loop_cons, download_step_eq. simpl.
  by rewrite Hu, Hd, He.
Qed.

Lemma download_loop_heap products acc s r s' :
  Scripts.download_loop W api out_dir products acc s = (r, s') ->
  st_heap s' = st_heap s.
Proof.
  revert acc s. induction products as [|m ms IH]; intros acc s.
  - by intros [= _ <-].
  - destruct (truthy (uid_of (st_heap s) m)) eqn:Hu.
    + destruct (api_download W (st_trace s) api (uid_of (st_heap s) m) out_dir)
        as [e|res] eqn:Hd.
      * destruct (is_Exception e) eqn:He.
        -- rewrite (download_loop_failed _ _ _ _ e) by done. by intros ->%IH.
        -- rewrite (download_loop_aborted _ _ _ _ e) by done. by intros [= _ <-].
      * rewrite (download_loop_done _ _ _ _ res) by done. by intros ->%IH.
    + rewrite download_loop_skip by done. by intros ->%IH.
Qed.
End Download.

Section DownloadBatch.
Context (W : world) (api : SentinelAPI) (out_dir : string).

(** With downloads that raise nothing but [Exception]s, the loop runs to
    its end: it calls the download of every entry with an identifier, in
    order, and gathers what the calls produce. *)
Lemma download_loop_total products acc s :
  downloads_raise_Exception W ->
  exists log',
    Scripts.download_loop W api out_dir products acc s
    = (ok (acc ++ produced W (st_trace s)
                           (download_calls api out_dir (st_heap s) products)),
       State (st_heap s)
             (st_trace s ++ download_calls api out_dir (st_heap s) products)
             log').
Proof.
  intros HW. revert acc s. induction products as [|m ms IH]; intros acc s.
  - exists (st_log s). rewrite download_loop_nil. unfold download_calls. simpl.
    rewrite !app_nil_r. by destruct s.
  - unfold download_calls. rewrite filter_cons.
    destruct (truthy (uid_of (st_heap s) m)) eqn:Hu.
    + rewrite decide_True by done. rewrite fmap_cons.
      fold (download_calls api out_dir (st_heap s) ms).
      destruct (api_download W (st_trace s) api (uid_of (st_heap s) m) out_dir)
        as [e|res] eqn:Hd.
      * rewrite (download_loop_failed _ _ _ _ _ _ _ e Hu Hd (HW _ _ _ _ _ Hd)).
        edestruct IH as [log' ->]. exists log'. simpl. rewrite Hd. simpl.
        by rewrite <- app_assoc.
      * rewrite (download_loop_done _ _ _ _ _ _ _ res Hu Hd).
        edestruct IH as [log' ->]. exists log'. simpl. rewrite Hd. simpl.
        by rewrite <- !app_assoc.
    + rewrite decide_False by done.
      fold (download_calls api out_dir (st_heap s) ms).
      rewrite (download_loop_skip _ _ _ _ _ _ _ Hu).
      edestruct IH as [log' ->]. by exists log'.
Qed.

(** Whatever the loop has appended comes from downloads that returned,
    each for an entry of its own that has an identifier. *)
Lemma download_loop_emitted products acc s acc' s' :
  Scripts.download_loop W api out_dir products acc s = (ok acc', s') ->
  exists srcs emitted,
    acc' = acc ++ emitted /\
    srcs `sublist_of` products /\
    Forall2 (fun m p =>
               truthy (uid_of (st_heap s) m) = true /\
               exists t res,
                 api_download W t api (uid_of (st_heap s) m) out_dir = ok res /\
                 p = local_path res)
            srcs emitted.
Proof.
  revert acc s. induction products as [|m ms IH]; intros acc s.
  - rewrite download_loop_nil. intros [= <- _]. exists [], [].
    rewrite app_nil_r. by repeat split.
  - destruct (truthy (uid_of (st_heap s) m)) eqn:Hu.
    + destruct (api_download W (st_trace s) api (uid_of (st_heap s) m) out_dir)
        as [e|res] eqn:Hd.
      * destruct (is_Exception e) eqn:He.
        -- rewrite (download_loop_failed _ _ _ _ _ _ _ e Hu Hd He).
           intros (srcs & emitted & -> & Hsub & Hall)%IH.
           exists srcs, emitted. split; [done|]. split; [by apply sublist_cons|done].
        -- by rewrite (download_loop_aborted _ _ _ _ _ _ _ e Hu Hd He).
      * rewrite (download_loop_done _ _ _ _ _ _ _ res Hu Hd).
        intros (srcs & emitted & -> & Hsub & Hall)%IH.
        exists (m :: srcs), (local_path res :: emitted).
        split; [by rewrite <- app_assoc|]. split; [by apply sublist_skip|].
        constructor; [|done]. split; [done|]. by exists (st_trace s), res.
    + rewrite (download_loop_skip _ _ _ _ _ _ _ Hu).
      intros (srcs & emitted & -> & Hsub & Hall)%IH.
      exists srcs, emitted. split; [done|]. split; [by apply sublist_cons|done].
Qed.
End DownloadBatch.

(** ** [download_products] as a whole *)

Lemma ensure_dir_returns (W : world) (path : string) (s : state) :
  dir_ready W (st_trace s) path ->
  Scripts._ensure_dir W path s
  = (ok tt, State (st_heap s) (st_trace s ++ ensure_dir_calls W (st_trace s) path)
                  (st_log s)).
Proof.
  intros Hr. unfold Scripts._ensure_dir, bindM, path_exists, makedirs, ret,
    ensure_dir_calls. simpl.
  destruct (os_path_exists W (st_trace s) path) eqn:He; simpl; [done|].
  destruct Hr as [Hr|Hr]; [congruence|]. rewrite Hr. by rewrite <- app_assoc.
Qed.

Lemma download_products_eq (W : world) (creds : SentinelCredentials)
    (products : list loc) (out_dir : string) (api : option SentinelAPI) (s : state) :
  dir_ready W (st_trace s) out_dir ->
  Scripts.download_products W creds products out_dir api s
  = match Scripts.download_loop W (client creds api) out_dir products []
            (State (st_heap s)
                   (st_trace s ++ ensure_dir_calls W (st_trace s) out_dir) (st_log s)) with
    | (inl e, s') => (inl e, s')
    | (inr downloaded, s') =>
        (ok downloaded,
         State (st_heap s') (st_trace s')
               (st_log s' ++ [log_downloaded (length downloaded)]))
    end.
Proof.
  intros Hr. unfold Scripts.download_products.
  unfold bindM at 1. rewrite ensure_dir_returns by done.
  unfold bindM at 1. fold (client creds api).
  destruct (Scripts.download_loop _ _ _ _ _ _) as [[e|downloaded] s']; done.
Qed.

(** ** The claims on the download orchestrator *)

(** C5: a download that raises an [Exception] for the entry [X] is caught
    and logged, the list gathered so far is kept as it is, and the loop
    goes on with the entries after [X]; and when no download raises
    anything but [Exception]s, the whole batch is processed: every entry
    with an identifier is tried, in order, and [download_products]
    returns the local paths of the downloads that returned, in that
    order. *)
Theorem download_failure_skipped (W : world) (creds : SentinelCredentials)
    (out_dir : string) (api : option SentinelAPI) :
  (forall (l1 : list loc) (X : loc) (l2 : list loc) (acc acc1 : list pyval)
          (s s1 : state) (e : exn),
      Scripts.download_loop W (client creds api) out_dir l1 acc s = (ok acc1, s1) ->
      truthy (uid_of (st_heap s1) X) = true ->
      api_download W (st_trace s1) (client creds api) (uid_of (st_heap s1) X) out_dir
      = inl e ->
      is_Exception e = true ->
      Scripts.download_loop W (client creds api) out_dir (l1 ++ X :: l2) acc s
      = Scripts.download_loop W (client creds api) out_dir l2 acc1
          (failed_attempt (client creds api) out_dir X e s1) /\
      Original.download_loop W (client creds api) out_dir (l1 ++ X :: l2) acc s
      = Original.download_loop W (client creds api) out_dir l2 acc1
          (failed_attempt (client creds api) out_dir X e s1)) /\
  (forall (products : list loc) (s : state),
      downloads_raise_Exception W ->
      dir_ready W (st_trace s) out_dir ->
      let t0 := st_trace s ++ ensure_dir_calls W (st_trace s) out_dir in
      let calls := download_calls (client creds api) out_dir (st_heap s) products in
      exists log',
        Scripts.download_products W creds products out_dir api s
        = (ok (produced W t0 calls), State (st_heap s) (t0 ++ calls) log') /\
        Original.download_products W creds products out_dir api s
        = (ok (produced W t0 calls), State (st_heap s) (t0 ++ calls) log')).
Proof.
  split.
  - intros l1 X l2 acc acc1 s s1 e Hl1 Hu Hd He.
    rewrite download_loops_agree. rewrite download_loop_app, Hl1.
    unfold ok. cbv beta iota.
    by rewrite (download_loop_failed _ _ _ _ _ _ _ e Hu Hd He).
  - intros products s HW Hr t0 calls.
    rewrite download_products_agree, download_products_eq by done.
    destruct (download_loop_total W (client creds api) out_dir products []
                (State (st_heap s) t0 (st_log s)) HW) as [log' Hloop].
    fold t0. rewrite Hloop. simpl. eauto.
Qed.

Lemma download_failure_skipped_witness :
  Scripts.download_loop example_world (client example_creds None) "out"
    ([] ++ entry_b :: [entry_c]) [] (init example_store)
  = Scripts.download_loop example_world (client example_creds None) "out" [entry_c] []
      (failed_attempt (client example_creds None) "out" entry_b ConnectionError
                      (init example_store)) /\
  Original.download_loop example_world (client example_creds None) "out"
    ([] ++ entry_b :: [entry_c]) [] (init example_store)
  = Original.download_loop example_world (client example_creds None) "out" [entry_c] []
      (failed_attempt (client example_creds None) "out" entry_b ConnectionError
                      (init example_store)).
Proof.
  apply (proj1 (download_failure_skipped example_world example_creds "out" None)
           [] entry_b [entry_c] [] [] (init example_store) (init example_store)
           ConnectionError); reflexivity.
Defined.

(** C6: an entry without identifier is skipped with one warning: no
    download is called for it, nothing is appended, and the loop goes on
    with the next entry; every result the loop appends comes from a
    download that returned, for an entry of its own that has an
    identifier; and for an entry [X] without identifier followed by an
    entry [V] with one, whose download returns, [download_products]
    returns exactly the local path of [V] and logs exactly one skip. *)
Theorem download_needs_identifier (W : world) (creds : SentinelCredentials)
    (out_dir : string) (api : option SentinelAPI) :
  (forall (l1 : list loc) (X : loc) (l2 : list loc) (acc acc1 : list pyval)
          (s s1 : state),
      Scripts.download_loop W (client creds api) out_dir l1 acc s = (ok acc1, s1) ->
      truthy (uid_of (st_heap s1) X) = false ->
      Scripts.download_loop W (client creds api) out_dir (l1 ++ X :: l2) acc s
      = Scripts.download_loop W (client creds api) out_dir l2 acc1 (skipped X s1) /\
      Original.download_loop W (client creds api) out_dir (l1 ++ X :: l2) acc s
      = Original.download_loop W (client creds api) out_dir l2 acc1 (skipped X s1)) /\
  (forall (products : list loc) (acc acc' : list pyval) (s s' : state),
      Scripts.download_loop W (client creds api) out_dir products acc s = (ok acc', s') \/
      Original.download_loop W (client creds api) out_dir products acc s = (ok acc', s') ->
      exists srcs emitted,
        acc' = acc ++ emitted /\
        srcs `sublist_of` products /\
        Forall2 (fun m p =>
                   truthy (uid_of (st_heap s) m) = true /\
                   exists t res,
                     api_download W t (client creds api) (uid_of (st_heap s) m) out_dir
                     = ok res /\
                     p = local_path res)
                srcs emitted) /\
  (forall (X V : loc) (s : state) (res : pyobj),
      dir_ready W (st_trace s) out_dir ->
      truthy (uid_of (st_heap s) X) = false ->
      truthy (uid_of (st_heap s) V) = true ->
      let t0 := st_trace s ++ ensure_dir_calls W (st_trace s) out_dir in
      api_download W t0 (client creds api) (uid_of (st_heap s) V) out_dir = ok res ->
      let s' := State (st_heap s)
                      (t0 ++ [CallDownload (client creds api) (uid_of (st_heap s) V) out_dir])
                      (st_log s ++ [log_skip (st_heap s) X;
                                    log_downloading (st_heap s) V;
                                    log_downloaded 1]) in
      Scripts.download_products W creds [X; V] out_dir api s = (ok [local_path res], s') /\
      Original.download_products W creds [X; V] out_dir api s = (ok [local_path res], s')).
Proof.
  split; [|split].
  - intros l1 X l2 acc acc1 s s1 Hl1 Hu.
    rewrite download_loops_agree. rewrite download_loop_app, Hl1.
    unfold ok. cbv beta iota.
    by rewrite (download_loop_skip _ _ _ _ _ _ _ Hu).
  - intros products acc acc' s s' Hloop. rewrite download_loops_agree in Hloop.
    apply (download_loop_emitted W (client creds api) out_dir products acc s acc' s').
    tauto.
  - intros X V s res Hr HX HV t0 Hd s'.
    rewrite download_products_agree, download_products_eq by done. fold t0.
    rewrite download_loop_skip by done.
    rewrite (download_loop_done _ _ _ _ _ _ _ res) by done.
    rewrite download_loop_nil. simpl. unfold s'.
    by rewrite <- !app_assoc.
Qed.

Lemma download_needs_identifier_witness :
  Scripts.download_products example_world example_creds [entry_d; entry_c] "out" None
    (init example_store)
  = (ok [VStr "c.zip"],
     State example_store
           [CallExists "out";
            CallDownload (client example_creds None) (VStr "c") "out"]
           [log_skip example_store entry_d;
            log_downloading example_store entry_c;
            log_downloaded 1]) /\
  Original.download_products example_world example_creds [entry_d; entry_c] "out" None
    (init example_store)
  = (ok [VStr "c.zip"],
     State example_store
           [CallExists "out";
            CallDownload (client example_creds None) (VStr "c") "out"]
           [log_skip example_store entry_d;
            log_downloading example_store entry_c;
            log_downloaded 1]).
Proof.
  pose proof
    (proj2 (proj2 (download_needs_identifier example_world example_creds "out" None))
       entry_d entry_c (init example_store) (ODict {[ "path" := VStr "c.zip" ]})
       (or_introl eq_refl) eq_refl eq_refl eq_refl) as H.
  exact H.
Defined.

(** ** Computations that do not read the log *)

Lemma log_blind_ret {A} (a : A) : log_blind (ret a).
Proof. intros h t. exists (ok a), h, t, []. intros l. by rewrite app_nil_r. Qed.

Lemma log_blind_lift {A} (r : result A) : log_blind (lift r).
Proof. intros h t. exists r, h, t, []. intros l. by rewrite app_nil_r. Qed.

Lemma log_blind_logger lvl fmt args : log_blind (logger lvl fmt args).
Proof. intros h t. by exists (ok tt), h, t, [Log lvl fmt args]. Qed.

Lemma log_blind_query W api args : log_blind (query W api args).
Proof.
  intros h t. exists (api_query W t api args), h, (t ++ [CallQuery api args]), [].
  intros l. unfold query. simpl. by rewrite app_nil_r.
Qed.

Lemma log_blind_meta_set meta k v : log_blind (meta_set meta k v).
Proof.
  intros h t. exists (ok tt), (<[meta := <[k := v]> (deref h meta)]> h), t, [].
  intros l. unfold meta_set. simpl. by rewrite app_nil_r.
Qed.

Lemma log_blind_sort_results results : log_blind (sort_results results).
Proof.
  intros h t. exists (list_sort (sort_key h) true results), h, t, [].
  intros l. unfold sort_results. simpl. by rewrite app_nil_r.
Qed.

Lemma log_blind_bind {A B} (m : M A) (k : A -> M B) :
  log_blind m -> (forall a, log_blind (k a)) -> log_blind (bindM m k).
Proof.
  intros Hm Hk h t. destruct (Hm h t) as (r & h' & t' & dl & Hr).
  destruct r as [e|a].
  - exists (inl e), h', t', dl. intros l. unfold bindM. by rewrite Hr.
  - destruct (Hk a h' t') as (r2 & h2 & t2 & dl2 & Hr2).
    exists r2, h2, t2, (dl ++ dl2). intros l. unfold bindM.
    by rewrite Hr, Hr2, app_assoc.
Qed.

Lemma log_blind_for {A S} (xs : list A) (body : A -> S -> M S) (acc : S) :
  (forall x acc, log_blind (body x acc)) -> log_blind (for_M xs body acc).
Proof.
  intros Hb. revert acc. induction xs as [|x xs IH]; intros acc; simpl.
  - apply log_blind_ret.
  - apply log_blind_bind; [apply Hb|]. intros acc'. apply IH.
Qed.

(** An invariant of every turn is an invariant of the loop. *)
Lemma for_M_invariant {A S} (P : S -> state -> Prop) (xs : list A)
    (body : A -> S -> M S) (acc acc' : S) (s s' : state) :
  (forall x a st a' st', x ∈ xs -> P a st -> body x a st = (ok a', st') -> P a' st') ->
  P acc s -> for_M xs body acc s = (ok acc', s') -> P acc' s'.
Proof.
  revert acc s. induction xs as [|x xs IH]; intros acc s Hb HP; simpl.
  - by intros [= <- <-].
  - unfold bindM. destruct (body x acc s) as [[e|a] st] eqn:Hx; [done|].
    apply IH.
    + intros y b st1 b' st1' Hy. apply Hb. by right.
    + eapply Hb; [by left|exact HP|exact Hx].
Qed.

(** ** [query_sentinel_products] *)

Lemma returned_by_app W t t' from uid m :
  returned_by W t from uid m -> returned_by W (t ++ t') from uid m.
Proof.
  intros (i & api & args & items & Hi & Hl & Hq & Hin).
  pose proof (lookup_lt_Some _ _ _ Hl) as Hlt.
  exists i, api, args, items. repeat split; try done.
  - by rewrite lookup_app_l.
  - by rewrite take_app_le by lia.
Qed.

Section Query.
Context (W : world) (creds : SentinelCredentials) (wkt_area : string)
        (cloud_max : Q) (product_type platformname : string).

Let api := Build_SentinelAPI (user creds) (password creds) (api_url creds).

(** The inner loop, over the items of one answer. *)
Let inner (products : list (pyval * loc)) (results : list loc) : M (list loc) :=
  for_M products
    (fun '(uid, meta) results =>
       meta_set meta "_uid" uid ;;
       ret (results ++ [meta]))
    results.

(** The outer loop, over the date windows. *)
Let outer (date_ranges : list (string * string)) (results : list loc) : M (list loc) :=
  for_M date_ranges
    (fun '(start_iso, end_iso) results =>
       logger DEBUG "Querying %s to %s" [AVal (VStr start_iso); AVal (VStr end_iso)] ;;
       products <- query W api
         {| q_area := wkt_area;
            q_date := (start_iso, end_iso);
            q_platformname := platformname;
            q_producttype := product_type;
            q_cloudcoverpercentage := (0, cloud_max) |} ;;
       inner products results)
    results.

(** What follows the date-range message. *)
Let rest (date_ranges : list (string * string)) : M (list loc) :=
  results <- outer date_ranges [] ;;
  results <- sort_results results ;;
  logger INFO "Found %d products matching criteria"
         [AVal (VInt (Z.of_nat (length results)))] ;;
  ret results.

Lemma scripts_query_unfold start_year end_year months s :
  Scripts.query_sentinel_products W creds wkt_area start_year end_year cloud_max
    product_type platformname months s
  = match Scripts._month_limited_date_ranges start_year end_year months with
    | inl e => (inl e, State (st_heap s) (st_trace s) (st_log s ++ [log_connecting creds]))
    | inr date_ranges =>
        rest date_ranges
          (State (st_heap s) (st_trace s)
                 (st_log s ++ [log_connecting creds;
                               log_years_scripts months start_year end_year]))
    end.
Proof.
  unfold Scripts.query_sentinel_products.
  unfold bindM at 1. unfold logger at 1. cbv beta iota zeta.
  unfold bindM at 1. unfold lift at 1. cbv beta iota.
  destruct (Scripts._month_limited_date_ranges start_year end_year months)
    as [e|date_ranges]; [done|].
  unfold bindM at 1. unfold logger at 1. cbv beta iota. simpl st_heap.
  simpl st_trace. simpl st_log. by rewrite <- app_assoc.
Qed.

Lemma original_query_unfold start_year end_year s :
  Original.query_sentinel_products W creds wkt_area start_year end_year cloud_max
    product_type platformname s
  = match Original._month_limited_date_ranges start_year end_year (5, 8) with
    | inl e => (inl e, State (st_heap s) (st_trace s) (st_log s ++ [log_connecting creds]))
    | inr date_ranges =>
        rest date_ranges
          (State (st_heap s) (st_trace s)
                 (st_log s ++ [log_connecting creds;
                               log_years_original start_year end_year]))
    end.
Proof.
  unfold Original.query_sentinel_products.
  unfold bindM at 1. unfold logger at 1. cbv beta iota zeta.
  unfold bindM at 1. unfold lift at 1. cbv beta iota.
  destruct (Original._month_limited_date_ranges start_year end_year (5, 8))
    as [e|date_ranges]; [done|].
  unfold bindM at 1. unfold logger at 1. cbv beta iota. simpl st_heap.
  simpl st_trace. simpl st_log. by rewrite <- app_assoc.
Qed.

(** The invariant of the two loops: every record gathered so far carries
    under ["_uid"] an identifier under which a query of this run, the
    calls from position [n0] on, returned it. *)
Let Inv (n0 : nat) (results : list loc) (st : state) : Prop :=
  (n0 <= length (st_trace st))%nat /\
  forall m, m ∈ results ->
    exists uid, deref (st_heap st) m !! "_uid" = Some uid /\
                returned_by W (st_trace st) n0 uid m.

Lemma inner_invariant n0 items results st results' st' :
  (forall uid m, (uid, m) ∈ items -> returned_by W (st_trace st) n0 uid m) ->
  Inv n0 results st ->
  inner items results st = (ok results', st') ->
  Inv n0 results' st'.
Proof.
  intros Hitems HI Hrun.
  enough (Inv n0 results' st' /\ st_trace st' = st_trace st) as [? _] by done.
  revert Hrun. unfold inner.
  apply (for_M_invariant (fun a st1 => Inv n0 a st1 /\ st_trace st1 = st_trace st));
    [|by split].
  intros [uid meta] a st1 a' st1' Hin [[Hn Ha] Ht].
  unfold bindM, meta_set, ret. simpl. intros [= <- <-]. simpl.
  split; [|done]. split; [done|]. simpl.
  intros m Hm. unfold deref. destruct (decide (m = meta)) as [->|Hne].
  - rewrite lookup_insert_eq. simpl. exists uid.
    rewrite lookup_insert_eq. split; [done|]. rewrite Ht. by apply Hitems.
  - rewrite lookup_insert_ne by done.
    apply elem_of_app in Hm as [Hm|Hm%list_elem_of_singleton]; [|done].
    by apply Ha.
Qed.

Lemma outer_invariant n0 date_ranges results st results' st' :
  Inv n0 results st ->
  outer date_ranges results st = (ok results', st') ->
  Inv n0 results' st'.
Proof.
  unfold outer. apply (for_M_invariant (Inv n0)).
  clear. intros [start_iso end_iso] a st a' st' _ [Hn Ha].
  unfold bindM at 1. unfold logger at 1. unfold ok at 1. cbv beta iota.
  unfold bindM at 1. unfold query at 1. simpl st_trace. simpl st_heap. simpl st_log.
  match goal with |- context [api_query W ?t ?a ?q] =>
    set (args := q); destruct (api_query W t a args) as [e|items] eqn:Hq
  end; [done|].
  apply inner_invariant.
  - simpl. intros uid m Hin.
    exists (length (st_trace st)), api, args, items.
    split; [done|]. split; [|split; [|done]].
    + by rewrite lookup_app_r, Nat.sub_diag by lia.
    + by rewrite take_app_length.
  - split; simpl; [rewrite length_app; lia|].
    intros m (uid & Hu & Hr)%Ha. exists uid. split; [done|].
    by apply returned_by_app.
Qed.

Lemma rest_uids date_ranges s results s' :
  rest date_ranges s = (ok results, s') ->
  forall m, m ∈ results ->
    exists uid, deref (st_heap s') m !! "_uid" = Some uid /\
                returned_by W (st_trace s') (length (st_trace s)) uid m.
Proof.
  unfold rest. unfold bindM at 1.
  destruct (outer date_ranges [] s) as [[e|gathered] s1] eqn:Hout; [done|].
  apply (outer_invariant (length (st_trace s))) in Hout as [_ Hall];
    [|split; [done|by intros m ?%elem_of_nil]].
  unfold bindM at 1. unfold sort_results at 1.
  destruct (list_sort (sort_key (st_heap s1)) true gathered) as [e|ranked] eqn:Hsort;
    [done|].
  unfold bindM, logger, ret. simpl. intros [= <- <-]. simpl.
  intros m Hm. apply Hall.
  assert (ranked ≡ₚ gathered) as Hp; [|by rewrite <- Hp].
  unfold list_sort, sort_asc in Hsort.
  destruct (for_result (reverse gathered) _ []) as [e|sorted] eqn:Hs; [done|].
  injection Hsort as <-. apply sort_loop_Permutation in Hs.
  by rewrite reverse_Permutation, Hs, reverse_Permutation.
Qed.

Lemma rest_log_blind date_ranges : log_blind (rest date_ranges).
Proof.
  unfold rest. apply log_blind_bind.
  - apply log_blind_for. intros [start_iso end_iso] results.
    apply log_blind_bind; [apply log_blind_logger|]. intros _.
    apply log_blind_bind; [apply log_blind_query|]. intros products.
    apply log_blind_for. intros [uid meta] results'.
    apply log_blind_bind; [apply log_blind_meta_set|]. intros _.
    apply log_blind_ret.
  - intros results. apply log_blind_bind; [apply log_blind_sort_results|].
    intros ranked. apply log_blind_bind; [apply log_blind_logger|]. intros _.
    apply log_blind_ret.
Qed.

Lemma rest_nil s :
  rest [] s = (ok [], State (st_heap s) (st_trace s) (st_log s ++ [log_found 0])).
Proof. reflexivity. Qed.
End Query.

(** ** The claims on the query *)

(** C8: every record in the list [query_sentinel_products] returns carries
    a ["_uid"] key, and its value is an identifier under which a query of
    this very call returned the record. *)
Theorem query_results_carry_uid (W : world) (creds : SentinelCredentials)
    (wkt_area : string) (start_year end_year : Z) (cloud_max : Q)
    (product_type platformname : string) (months : Z * Z)
    (s s' : state) (results : list loc) :
  Original.query_sentinel_products W creds wkt_area start_year end_year cloud_max
    product_type platformname s = (ok results, s') \/
  Scripts.query_sentinel_products W creds wkt_area start_year end_year cloud_max
    product_type platformname months s = (ok results, s') ->
  forall m, m ∈ results ->
    exists uid,
      deref (st_heap s') m !! "_uid" = Some uid /\
      returned_by W (st_trace s') (length (st_trace s)) uid m.
Proof.
  rewrite original_query_unfold, scripts_query_unfold.
  intros [H|H].
  - destruct (Original._month_limited_date_ranges _ _ _) as [e|date_ranges]; [done|].
    exact (rest_uids _ _ _ _ _ _ _ _ _ _ H).
  - destruct (Scripts._month_limited_date_ranges _ _ _) as [e|date_ranges]; [done|].
    exact (rest_uids _ _ _ _ _ _ _ _ _ _ H).
Qed.

Lemma query_results_carry_uid_witness :
  exists uid,
    deref (st_heap (snd (Scripts.query_sentinel_products catalog_world example_creds
                           "POLYGON EMPTY" 2020 2021 DEFAULT_CLOUD_MAX
                           SENTINEL2_PRODUCTTYPE "Sentinel-2" (5, 8)
                           (init example_store)))) entry_b !! "_uid" = Some uid /\
    returned_by catalog_world
      (st_trace (snd (Scripts.query_sentinel_products catalog_world example_creds
                        "POLYGON EMPTY" 2020 2021 DEFAULT_CLOUD_MAX
                        SENTINEL2_PRODUCTTYPE "Sentinel-2" (5, 8)
                        (init example_store))))
      (length (st_trace (init example_store))) uid entry_b.
Proof.
  apply (query_results_carry_uid catalog_world example_creds "POLYGON EMPTY" 2020 2021
           DEFAULT_CLOUD_MAX SENTINEL2_PRODUCTTYPE "Sentinel-2" (5, 8)
           (init example_store) _ [entry_b; entry_c]).
  - right. vm_compute. reflexivity.
  - apply list_elem_of_here.
Defined.

(** A record the catalogue returns under two identifiers is listed twice
    and carries the second one. *)
Example query_aliased_record :
  let run := Scripts.query_sentinel_products aliasing_world example_creds "POLYGON EMPTY"
               2021 2021 DEFAULT_CLOUD_MAX SENTINEL2_PRODUCTTYPE "Sentinel-2" (5, 8)
               (init example_store) in
  fst run = ok [entry_b; entry_b] /\
  uid_of (st_heap (snd run)) entry_b = VStr "y".
Proof. by vm_compute. Qed.

(** C9: with [start_year > end_year] the builder returns the empty list
    and raises nothing, and [query_sentinel_products] returns the empty
    list with the store and the trace of outside calls as they were: no
    query is issued. *)
Theorem query_empty_year_range (W : world) (creds : SentinelCredentials)
    (wkt_area : string) (start_year end_year : Z) (cloud_max : Q)
    (product_type platformname : string) (months : Z * Z) (s : state) :
  end_year < start_year ->
  Original._month_limited_date_ranges start_year end_year months = ok [] /\
  Scripts._month_limited_date_ranges start_year end_year months = ok [] /\
  Original.query_sentinel_products W creds wkt_area start_year end_year cloud_max
    product_type platformname s
  = (ok [], State (st_heap s) (st_trace s)
                  (st_log s ++ [log_connecting creds;
                                log_years_original start_year end_year;
                                log_found 0])) /\
  Scripts.query_sentinel_products W creds wkt_area start_year end_year cloud_max
    product_type platformname months s
  = (ok [], State (st_heap s) (st_trace s)
                  (st_log s ++ [log_connecting creds;
                                log_years_scripts months start_year end_year;
                                log_found 0])).
Proof.
  intros Hlt. rewrite original_query_unfold, scripts_query_unfold.
  rewrite !builders_agree, !builder_empty by done.
  split; [done|]. split; [done|]. unfold ok. cbv beta iota.
  rewrite !rest_nil. simpl. by rewrite <- !app_assoc.
Qed.

Lemma query_empty_year_range_witness :
  Original._month_limited_date_ranges 2021 2019 (5, 8) = ok [] /\
  Scripts._month_limited_date_ranges 2021 2019 (5, 8) = ok [] /\
  Original.query_sentinel_products catalog_world example_creds "POLYGON EMPTY" 2021 2019
    DEFAULT_CLOUD_MAX SENTINEL2_PRODUCTTYPE "Sentinel-2" (init example_store)
  = (ok [], State (st_heap (init example_store)) (st_trace (init example_store))
                  (st_log (init example_store)
                   ++ [log_connecting example_creds; log_years_original 2021 2019;
                       log_found 0])) /\
  Scripts.query_sentinel_products catalog_world example_creds "POLYGON EMPTY" 2021 2019
    DEFAULT_CLOUD_MAX SENTINEL2_PRODUCTTYPE "Sentinel-2" (5, 8) (init example_store)
  = (ok [], State (st_heap (init example_store)) (st_trace (init example_store))
                  (st_log (init example_store)
                   ++ [log_connecting example_creds; log_years_scripts (5, 8) 2021 2019;
                       log_found 0])).
Proof.
  apply (query_empty_year_range catalog_world example_creds "POLYGON EMPTY" 2021 2019
           DEFAULT_CLOUD_MAX SENTINEL2_PRODUCTTYPE "Sentinel-2" (5, 8)
           (init example_store)).
  lia.
Defined.

(** ** The two files *)

(** C10: the two files have the same core.  Their builders are equal, their
    [download_products] are equal, and the query of the scripts file with
    its default months gives what the query of the original file gives: the
    same result or exception, the same store, the same calls to the
    outside, and the same log up to the wording of the date-range
    message. *)
Theorem copies_agree :
  (forall start_year end_year months,
      Original._month_limited_date_ranges start_year end_year months
      = Scripts._month_limited_date_ranges start_year end_year months) /\
  (forall W creds products out_dir api s,
      Original.download_products W creds products out_dir api s
      = Scripts.download_products W creds products out_dir api s) /\
  (forall W creds wkt_area start_year end_year cloud_max product_type platformname s,
      let run1 := Original.query_sentinel_products W creds wkt_area start_year end_year
                    cloud_max product_type platformname s in
      let run2 := Scripts.query_sentinel_products W creds wkt_area start_year end_year
                    cloud_max product_type platformname Scripts.default_months s in
      fst run1 = fst run2 /\
      st_heap (snd run1) = st_heap (snd run2) /\
      st_trace (snd run1) = st_trace (snd run2) /\
      Forall2 (same_record start_year end_year) (st_log (snd run1)) (st_log (snd run2))).
Proof.
  split; [|split].
  - intros. by rewrite builders_agree.
  - intros. by rewrite download_products_agree.
  - intros W creds wkt_area start_year end_year cloud_max product_type platformname s.
    cbv zeta. rewrite original_query_unfold, scripts_query_unfold.
    rewrite builders_agree. unfold Scripts.default_months.
    assert (forall l : list logrec, Forall2 (same_record start_year end_year) l l) as Hrefl.
    { intros l. apply Forall2_same_length_lookup. split; [done|].
      intros i a b Ha Hb. left. congruence. }
    destruct (Scripts._month_limited_date_ranges start_year end_year (5, 8))
      as [e|date_ranges]; simpl; [by repeat split|].
    destruct (rest_log_blind W creds wkt_area cloud_max product_type platformname
                date_ranges (st_heap s) (st_trace s)) as (r & h' & t' & dl & Hrest).
    rewrite !Hrest. simpl. repeat split.
    apply Forall2_app; [|done]. apply Forall2_app; [done|].
    constructor; [by left|]. constructor; [by right|constructor].
Qed.

(** * Further properties *)

(** ** The store under [meta["_uid"] = uid] *)

Lemma stamp_nil (h : heap) : stamp h [] = h.
Proof. reflexivity. Qed.

Lemma stamp_cons (h : heap) (uid : pyval) (m : loc) (items : list (pyval * loc)) :
  stamp h ((uid, m) :: items)
  = stamp (<[m := <["_uid" := uid]> (deref h m)]> h) items.
Proof. reflexivity. Qed.

Lemma stamp_app (h : heap) (items1 items2 : list (pyval * loc)) :
  stamp h (items1 ++ items2) = stamp (stamp h items1) items2.
Proof. unfold stamp. by rewrite foldl_app. Qed.

(** Only the field ["_uid"] is written. *)
Lemma stamp_other_field (h : heap) (items : list (pyval * loc)) (m : loc) (k : string) :
  k <> "_uid" -> deref (stamp h items) m !! k = deref h m !! k.
Proof.
  intros Hk. revert h. induction items as [|[uid m'] items IH]; intros h; [done|].
  rewrite stamp_cons, IH. unfold deref.
  destruct (decide (m = m')) as [->|Hne].
  - rewrite lookup_insert_eq. simpl. by rewrite lookup_insert_ne.
  - by rewrite lookup_insert_ne.
Qed.

(** Only the records of the items are written to. *)
Lemma stamp_other_record (h : heap) (items : list (pyval * loc)) (m : loc) :
  m ∉ items.*2 -> stamp h items !! m = h !! m.
Proof.
  revert h. induction items as [|[uid m'] items IH]; intros h Hm; [done|].
  rewrite fmap_cons, not_elem_of_cons in Hm. destruct Hm as [Hne Hm].
  rewrite stamp_cons, IH by done. simpl in Hne. by rewrite lookup_insert_ne.
Qed.

Lemma stamp_sort_key (h : heap) (items : list (pyval * loc)) (m : loc) :
  sort_key (stamp h items) m = sort_key h m.
Proof.
  unfold sort_key, dict_get. by rewrite !stamp_other_field.
Qed.

(** The sort looks at the keys only. *)
Lemma insort_ext {A} (key1 key2 : A -> pyval) (x : A) (run : list A) :
  (forall y, key1 y = key2 y) -> insort key1 x run = insort key2 x run.
Proof.
  intros Hk. induction run as [|y run IH]; simpl; [done|].
  by rewrite !Hk, IH.
Qed.

Lemma list_sort_ext {A} (key1 key2 : A -> pyval) (reverse : bool) (l : list A) :
  (forall y, key1 y = key2 y) -> list_sort key1 reverse l = list_sort key2 reverse l.
Proof.
  intros Hk. unfold list_sort, sort_asc. f_equal.
  generalize (@nil A) as run.
  induction (if reverse then list.reverse l else l) as [|x l' IH]; intros run; simpl; [done|].
  rewrite (insort_ext key1 key2) by done.
  destruct (insort key2 x run); simpl; [done|]. apply IH.
Qed.

(** Asking one list of queries after another. *)
Lemma first_failure_app W api t argss1 argss2 :
  first_failure W api t argss1 = None ->
  first_failure W api t (argss1 ++ argss2)
  = first_failure W api (t ++ (CallQuery api <$> argss1)) argss2 /\
  queried W api t (argss1 ++ argss2)
  = argss1 ++ queried W api (t ++ (CallQuery api <$> argss1)) argss2 /\
  gathered W api t (argss1 ++ argss2)
  = gathered W api t argss1 ++ gathered W api (t ++ (CallQuery api <$> argss1)) argss2.
Proof.
  revert t. induction argss1 as [|a argss1 IH]; intros t; simpl.
  - by rewrite app_nil_r.
  - destruct (api_query W t api a) as [e|items]; [done|]. intros H.
    destruct (IH _ H) as (-> & -> & ->).
    by rewrite <- !app_assoc.
Qed.

Lemma queries_return_all W api t argss :
  queries_return W ->
  first_failure W api t argss = None /\ queried W api t argss = argss.
Proof.
  intros HW. revert t. induction argss as [|a argss IH]; intros t; simpl; [done|].
  destruct (HW t api a) as [items ->]. destruct (IH (t ++ [CallQuery api a])) as [-> ->].
  done.
Qed.

(** ** The loops of the query, call by call *)

Section QueryRun.
Context (W : world) (creds : SentinelCredentials) (wkt_area : string)
        (cloud_max : Q) (product_type platformname : string).

Let api := Build_SentinelAPI (user creds) (password creds) (api_url creds).
Let args := window_args wkt_area cloud_max product_type platformname.

Let inner (products : list (pyval * loc)) (results : list loc) : M (list loc) :=
  for_M products
    (fun '(uid, meta) results =>
       meta_set meta "_uid" uid ;;
       ret (results ++ [meta]))
    results.

Let outer (date_ranges : list (string * string)) (results : list loc) : M (list loc) :=
  for_M date_ranges
    (fun '(start_iso, end_iso) results =>
       logger DEBUG "Querying %s to %s" [AVal (VStr start_iso); AVal (VStr end_iso)] ;;
       products <- query W api
         {| q_area := wkt_area;
            q_date := (start_iso, end_iso);
            q_platformname := platformname;
            q_producttype := product_type;
            q_cloudcoverpercentage := (0, cloud_max) |} ;;
       inner products results)
    results.

Let rest (date_ranges : list (string * string)) : M (list loc) :=
  results <- outer date_ranges [] ;;
  results <- sort_results results ;;
  logger INFO "Found %d products matching criteria"
         [AVal (VInt (Z.of_nat (length results)))] ;;
  ret results.

Lemma inner_run items results s :
  inner items results s
  = (ok (results ++ items.*2),
     State (stamp (st_heap s) items) (st_trace s) (st_log s)).
Proof.
  revert results s. induction items as [|[uid m] items IH]; intros results s.
  - simpl. rewrite app_nil_r. by destruct s.
  - unfold inner. simpl for_M. unfold bindM at 1.
    unfold bindM at 1. unfold meta_set at 1. unfold ok at 1. cbv beta iota.
    unfold ret at 1. unfold ok at 1. cbv beta iota.
    fold (inner items (results ++ [m])). rewrite IH. simpl.
    by rewrite <- app_assoc.
Qed.

Lemma outer_run date_ranges results s :
  exists log',
    outer date_ranges results s
    = (match first_failure W api (st_trace s) (args <$> date_ranges) with
       | Some e => inl e
       | None => ok (results ++ (gathered W api (st_trace s) (args <$> date_ranges)).*2)
       end,
       State (stamp (st_heap s) (gathered W api (st_trace s) (args <$> date_ranges)))
             (st_trace s ++ (CallQuery api <$> queried W api (st_trace s) (args <$> date_ranges)))
             log').
Proof.
  revert results s. induction date_ranges as [|[start_iso end_iso] drs IH]; intros results s.
  - exists (st_log s). simpl. rewrite !app_nil_r. by destruct s.
  - unfold outer. simpl for_M. unfold bindM at 1.
    unfold bindM at 1. unfold logger at 1. unfold ok at 1. cbv beta iota.
    unfold bindM at 1. unfold query at 1. simpl st_trace. simpl st_heap. simpl st_log.
    rewrite !fmap_cons. simpl first_failure. simpl queried. simpl gathered.
    change (args (start_iso, end_iso)) with
      {| q_area := wkt_area; q_date := (start_iso, end_iso);
         q_platformname := platformname; q_producttype := product_type;
         q_cloudcoverpercentage := (0, cloud_max) |}.
    set (a := {| q_area := wkt_area |}).
    destruct (api_query W (st_trace s) api a) as [e|items] eqn:Hq.
    + by eexists.
    + fold (inner items results). rewrite inner_run. simpl st_heap. simpl st_trace.
      unfold ok at 1. cbv beta iota.
      fold (outer drs (results ++ items.*2)).
      edestruct (IH (results ++ items.*2)) as [log' ->]. exists log'.
      simpl st_trace. simpl st_heap.
      destruct (first_failure W api (st_trace s ++ [CallQuery api a]) (args <$> drs));
        by rewrite ?stamp_app, ?fmap_app, <- ?app_assoc.
Qed.

Lemma rest_run date_ranges s :
  exists log',
    rest date_ranges s
    = (match first_failure W api (st_trace s) (args <$> date_ranges) with
       | Some e => inl e
       | None =>
           list_sort (sort_key (st_heap s)) true
                     (gathered W api (st_trace s) (args <$> date_ranges)).*2
       end,
       State (stamp (st_heap s) (gathered W api (st_trace s) (args <$> date_ranges)))
             (st_trace s ++ (CallQuery api <$> queried W api (st_trace s) (args <$> date_ranges)))
             log').
Proof.
  unfold rest. unfold bindM at 1.
  destruct (outer_run date_ranges [] s) as [log' ->].
  destruct (first_failure W api (st_trace s) (args <$> date_ranges)) as [e|]; [by eexists|].
  unfold ok at 1. cbv beta iota. simpl app.
  unfold bindM at 1. unfold sort_results at 1. simpl st_heap.
  rewrite (list_sort_ext _ (sort_key (st_heap s))) by (intros; apply stamp_sort_key).
  destruct (list_sort (sort_key (st_heap s)) true _) as [e|ranked]; [by eexists|].
  unfold bindM, logger, ret. simpl. by eexists.
Qed.

Lemma scripts_query_run start_year end_year months date_ranges s :
  Scripts._month_limited_date_ranges start_year end_year months = ok date_ranges ->
  exists log',
    Scripts.query_sentinel_products W creds wkt_area start_year end_year cloud_max
      product_type platformname months s
    = (match first_failure W api (st_trace s) (args <$> date_ranges) with
       | Some e => inl e
       | None =>
           list_sort (sort_key (st_heap s)) true
                     (gathered W api (st_trace s) (args <$> date_ranges)).*2
       end,
       State (stamp (st_heap s) (gathered W api (st_trace s) (args <$> date_ranges)))
             (st_trace s ++ (CallQuery api <$> queried W api (st_trace s) (args <$> date_ranges)))
             log').
Proof.
  intros Hb. rewrite scripts_query_unfold, Hb.
  edestruct rest_run as [log' Hr]. exists log'. exact Hr.
Qed.

Lemma original_query_run start_year end_year date_ranges s :
  Original._month_limited_date_ranges start_year end_year (5, 8) = ok date_ranges ->
  exists log',
    Original.query_sentinel_products W creds wkt_area start_year end_year cloud_max
      product_type platformname s
    = (match first_failure W api (st_trace s) (args <$> date_ranges) with
       | Some e => inl e
       | None =>
           list_sort (sort_key (st_heap s)) true
                     (gathered W api (st_trace s) (args <$> date_ranges)).*2
       end,
       State (stamp (st_heap s) (gathered W api (st_trace s) (args <$> date_ranges)))
             (st_trace s ++ (CallQuery api <$> queried W api (st_trace s) (args <$> date_ranges)))
             log').
Proof.
  intros Hb. rewrite original_query_unfold, Hb.
  edestruct rest_run as [log' Hr]. exists log'. exact Hr.
Qed.
End QueryRun.

Lemma queried_all W api t argss :
  first_failure W api t argss = None -> queried W api t argss = argss.
Proof.
  revert t. induction argss as [|a argss IH]; intros t; simpl; [done|].
  destruct (api_query W t api a); [done|]. intros H. by rewrite IH.
Qed.

(** ** The date-window builder, completely *)

(** X1: the builder returns exactly in two cases: the year range is empty,
    or both years are within [MINYEAR..MAXYEAR], the start month is a month
    and the end month has 31 days.  What it returns then is one window
    per year; in every other case it raises and never returns a part of
    the windows.  What it raises is [ValueError], or the [OverflowError]
    of [datetime.date]: the latter exactly when the first date is built
    from a start year or a start month that does not fit a C [int], or
    when that date is accepted and the end month does not fit. *)
Theorem builder_returns_iff (start_year end_year : Z) (months : Z * Z) :
  (forall ws,
      Scripts._month_limited_date_ranges start_year end_year months = ok ws <->
      ws = window months <$> range start_year (end_year + 1) /\
      (start_year <= end_year ->
       MINYEAR <= start_year /\ end_year <= MAXYEAR /\ months_accepted months)) /\
  (forall e,
      Scripts._month_limited_date_ranges start_year end_year months = inl e ->
      (e = ValueError \/ e = OverflowError) /\
      (e = OverflowError <->
       fits_int start_year = false \/ fits_int (fst months) = false \/
       (valid_year start_year /\ 1 <= fst months <= 12 /\
        fits_int (snd months) = false))) /\
  Original._month_limited_date_ranges start_year end_year months
  = Scripts._month_limited_date_ranges start_year end_year months.
Proof.
  split; [|split; [|by rewrite builders_agree]].
  - intros ws. split; [apply builder_inv|].
    intros [-> Hv]. destruct (decide (start_year <= end_year)) as [Hle|Hgt].
    + destruct (Hv Hle) as (? & ? & ?). by apply builder_returns.
    + rewrite builder_empty by lia. unfold range. by rewrite seqZ_nil by lia.
  - intros e He. by apply builder_error in He as [_ ?].
Qed.

(** ** The query, call by call *)

(** X2: when the builder accepts the years and the months and the
    catalogue raises nothing, [query_sentinel_products] asks the catalogue
    exactly once per year, in ascending order of the years, each time for
    the window of that year with the given area, platform, product type
    and cloud-cover range [(0, cloud_max)]; and it makes no other call,
    whether or not the final sort succeeds. *)
Theorem query_one_call_per_year (W : world) (creds : SentinelCredentials)
    (wkt_area : string) (start_year end_year : Z) (cloud_max : Q)
    (product_type platformname : string) (months : Z * Z) (s : state) :
  MINYEAR <= start_year -> end_year <= MAXYEAR -> months_accepted months ->
  queries_return W ->
  st_trace (snd (Scripts.query_sentinel_products W creds wkt_area start_year end_year
                   cloud_max product_type platformname months s))
  = st_trace s ++
    ((fun y => CallQuery (api_of creds)
                 (window_args wkt_area cloud_max product_type platformname (window months y)))
       <$> range start_year (end_year + 1)) /\
  st_trace (snd (Original.query_sentinel_products W creds wkt_area start_year end_year
                   cloud_max product_type platformname s))
  = st_trace s ++
    ((fun y => CallQuery (api_of creds)
                 (window_args wkt_area cloud_max product_type platformname (window (5, 8) y)))
       <$> range start_year (end_year + 1)).
Proof.
  intros Hs He Hm HW. split.
  - destruct (scripts_query_run W creds wkt_area cloud_max product_type platformname
                start_year end_year months _ s (builder_returns months _ _ Hs He Hm))
      as [log' ->].
    destruct (queries_return_all W (api_of creds) (st_trace s)
                (window_args wkt_area cloud_max product_type platformname
                   <$> (window months <$> range start_year (end_year + 1))) HW) as [_ Hq].
    simpl. unfold api_of in Hq. rewrite Hq. by rewrite <- !list_fmap_compose.
  - assert (months_accepted (5, 8)) as Hm58 by (by split).
    destruct (original_query_run W creds wkt_area cloud_max product_type platformname
                start_year end_year _ s (builder_returns (5, 8) _ _ Hs He Hm58))
      as [log' ->].
    destruct (queries_return_all W (api_of creds) (st_trace s)
                (window_args wkt_area cloud_max product_type platformname
                   <$> (window (5, 8) <$> range start_year (end_year + 1))) HW) as [_ Hq].
    simpl. unfold api_of in Hq. rewrite Hq. by rewrite <- !list_fmap_compose.
Qed.

Lemma query_one_call_per_year_witness :
  st_trace (snd (Scripts.query_sentinel_products catalog_world example_creds
                   "POLYGON EMPTY" 2020 2021 DEFAULT_CLOUD_MAX SENTINEL2_PRODUCTTYPE
                   "Sentinel-2" (5, 8) (init example_store)))
  = st_trace (init example_store) ++
    ((fun y => CallQuery (api_of example_creds)
                 (window_args "POLYGON EMPTY" DEFAULT_CLOUD_MAX SENTINEL2_PRODUCTTYPE
                              "Sentinel-2" (window (5, 8) y)))
       <$> range 2020 (2021 + 1)) /\
  st_trace (snd (Original.query_sentinel_products catalog_world example_creds
                   "POLYGON EMPTY" 2020 2021 DEFAULT_CLOUD_MAX SENTINEL2_PRODUCTTYPE
                   "Sentinel-2" (init example_store)))
  = st_trace (init example_store) ++
    ((fun y => CallQuery (api_of example_creds)
                 (window_args "POLYGON EMPTY" DEFAULT_CLOUD_MAX SENTINEL2_PRODUCTTYPE
                              "Sentinel-2" (window (5, 8) y)))
       <$> range 2020 (2021 + 1)).
Proof.
  apply (query_one_call_per_year catalog_world example_creds "POLYGON EMPTY" 2020 2021
           DEFAULT_CLOUD_MAX SENTINEL2_PRODUCTTYPE "Sentinel-2" (5, 8)
           (init example_store)).
  - unfold MINYEAR. lia.
  - unfold MAXYEAR. lia.
  - split; [simpl; lia|reflexivity].
  - intros t api args. simpl. repeat case_decide; eauto.
Defined.

(** X3: when every query returns and the timestamp keys of the returned
    records are of one kind, [query_sentinel_products] returns all the
    records of all the windows, each as often as it was returned, ordered
    by key descending, records of equal key in the order in which the
    catalogue returned them; the store is the one at the start with
    ["_uid"] written for every item. *)
Theorem query_returns_all_sorted (W : world) (creds : SentinelCredentials)
    (wkt_area : string) (start_year end_year : Z) (cloud_max : Q)
    (product_type platformname : string) (months : Z * Z)
    (date_ranges : list (string * string)) (k : kind) (s : state) :
  Scripts._month_limited_date_ranges start_year end_year months = ok date_ranges ->
  let argss := window_args wkt_area cloud_max product_type platformname <$> date_ranges in
  let items := gathered W (api_of creds) (st_trace s) argss in
  first_failure W (api_of creds) (st_trace s) argss = None ->
  Forall (fun it => kind_of (sort_key (st_heap s) it.2) = Some k) items ->
  exists results log',
    Scripts.query_sentinel_products W creds wkt_area start_year end_year cloud_max
      product_type platformname months s
    = (ok results,
       State (stamp (st_heap s) items)
             (st_trace s ++ (CallQuery (api_of creds) <$> argss)) log') /\
    results ≡ₚ items.*2 /\
    StronglySorted
      (fun a b => py_lt (sort_key (st_heap s) a) (sort_key (st_heap s) b) = ok false)
      results /\
    (forall v, filter (fun m => sort_key (st_heap s) m = v) results
               = filter (fun m => sort_key (st_heap s) m = v) items.*2) /\
    (months = (5, 8) ->
     fst (Original.query_sentinel_products W creds wkt_area start_year end_year cloud_max
            product_type platformname s) = ok results).
Proof.
  intros Hb argss items Hfail Hkind.
  destruct (list_sort_one_kind (sort_key (st_heap s)) k items.*2)
    as (results & Hsort & Hp & Hsorted & Hf).
  { rewrite Forall_fmap. exact Hkind. }
  destruct (scripts_query_run W creds wkt_area cloud_max product_type platformname
              start_year end_year months _ s Hb) as [log' Hrun].
  fold argss in Hrun. unfold api_of in *. fold items in Hrun.
  rewrite Hfail, Hsort, (queried_all _ _ _ _ Hfail) in Hrun.
  exists results, log'. repeat split; try done.
  intros ->. rewrite <- builders_agree in Hb.
  destruct (original_query_run W creds wkt_area cloud_max product_type platformname
              start_year end_year _ s Hb) as [log'' Hrun'].
  fold argss in Hrun'. fold items in Hrun'. rewrite Hfail, Hsort in Hrun'.
  by rewrite Hrun'.
Qed.

Lemma query_returns_all_sorted_witness :
  exists results log',
    Scripts.query_sentinel_products catalog_world example_creds "POLYGON EMPTY" 2020 2021
      DEFAULT_CLOUD_MAX SENTINEL2_PRODUCTTYPE "Sentinel-2" (5, 8) (init example_store)
    = (ok results,
       State (stamp (st_heap (init example_store))
                (gathered catalog_world (api_of example_creds)
                   (st_trace (init example_store))
                   (window_args "POLYGON EMPTY" DEFAULT_CLOUD_MAX SENTINEL2_PRODUCTTYPE
                      "Sentinel-2"
                      <$> [("2020-05-01", "2020-08-31"); ("2021-05-01", "2021-08-31")])))
             (st_trace (init example_store) ++
              (CallQuery (api_of example_creds)
                 <$> (window_args "POLYGON EMPTY" DEFAULT_CLOUD_MAX SENTINEL2_PRODUCTTYPE
                        "Sentinel-2"
                        <$> [("2020-05-01", "2020-08-31"); ("2021-05-01", "2021-08-31")])))
             log') /\
    results ≡ₚ (gathered catalog_world (api_of example_creds)
                  (st_trace (init example_store))
                  (window_args "POLYGON EMPTY" DEFAULT_CLOUD_MAX SENTINEL2_PRODUCTTYPE
                     "Sentinel-2"
                     <$> [("2020-05-01", "2020-08-31"); ("2021-05-01", "2021-08-31")])).*2 /\
    StronglySorted
      (fun a b => py_lt (sort_key (st_heap (init example_store)) a)
                        (sort_key (st_heap (init example_store)) b) = ok false)
      results /\
    (forall v, filter (fun m => sort_key (st_heap (init example_store)) m = v) results
               = filter (fun m => sort_key (st_heap (init example_store)) m = v)
                   (gathered catalog_world (api_of example_creds)
                      (st_trace (init example_store))
                      (window_args "POLYGON EMPTY" DEFAULT_CLOUD_MAX SENTINEL2_PRODUCTTYPE
                         "Sentinel-2"
                         <$> [("2020-05-01", "2020-08-31");
                              ("2021-05-01", "2021-08-31")])).*2) /\
    ((5, 8) = (5, 8) ->
     fst (Original.query_sentinel_products catalog_world example_creds "POLYGON EMPTY"
            2020 2021 DEFAULT_CLOUD_MAX SENTINEL2_PRODUCTTYPE "Sentinel-2"
            (init example_store)) = ok results).
Proof.
  apply (query_returns_all_sorted catalog_world example_creds "POLYGON EMPTY" 2020 2021
           DEFAULT_CLOUD_MAX SENTINEL2_PRODUCTTYPE "Sentinel-2" (5, 8)
           [("2020-05-01", "2020-08-31"); ("2021-05-01", "2021-08-31")] KStr
           (init example_store)).
  - vm_compute. reflexivity.
  - vm_compute. reflexivity.
  - vm_compute. repeat constructor.
Defined.

(** X4: an exception of [api.query] is not caught: it ends
    [query_sentinel_products] at once.  The windows after the failing one
    are never asked for, nothing is returned, and the records of the
    windows before it keep the ["_uid"] they were given. *)
Theorem query_failure_aborts (W : world) (creds : SentinelCredentials)
    (wkt_area : string) (start_year end_year : Z) (cloud_max : Q)
    (product_type platformname : string) (months : Z * Z)
    (before after : list (string * string)) (w : string * string) (e : exn) (s : state) :
  Scripts._month_limited_date_ranges start_year end_year months
  = ok (before ++ w :: after) ->
  let args := window_args wkt_area cloud_max product_type platformname in
  first_failure W (api_of creds) (st_trace s) (args <$> before) = None ->
  api_query W (st_trace s ++ (CallQuery (api_of creds) <$> (args <$> before)))
            (api_of creds) (args w) = inl e ->
  exists log',
    Scripts.query_sentinel_products W creds wkt_area start_year end_year cloud_max
      product_type platformname months s
    = (inl e,
       State (stamp (st_heap s) (gathered W (api_of creds) (st_trace s) (args <$> before)))
             (st_trace s ++ (CallQuery (api_of creds) <$> (args <$> (before ++ [w]))))
             log') /\
    (months = (5, 8) ->
     fst (Original.query_sentinel_products W creds wkt_area start_year end_year cloud_max
            product_type platformname s) = inl e).
Proof.
  intros Hb args Hbefore Hw.
  assert (first_failure W (api_of creds) (st_trace s) (args <$> before ++ w :: after) = Some e
          /\ queried W (api_of creds) (st_trace s) (args <$> before ++ w :: after)
             = args <$> (before ++ [w])
          /\ gathered W (api_of creds) (st_trace s) (args <$> before ++ w :: after)
             = gathered W (api_of creds) (st_trace s) (args <$> before)) as (Hf & Hq & Hg).
  { rewrite fmap_app, fmap_cons.
    destruct (first_failure_app W (api_of creds) (st_trace s) (args <$> before)
                (args w :: (args <$> after)) Hbefore) as (-> & -> & ->).
    simpl. rewrite Hw. rewrite fmap_app. simpl. by rewrite app_nil_r. }
  destruct (scripts_query_run W creds wkt_area cloud_max product_type platformname
              start_year end_year months _ s Hb) as [log' Hrun].
  fold args in Hrun. unfold api_of in *. rewrite Hf, Hq, Hg in Hrun.
  exists log'. split; [done|].
  intros ->. rewrite <- builders_agree in Hb.
  destruct (original_query_run W creds wkt_area cloud_max product_type platformname
              start_year end_year _ s Hb) as [log'' Hrun'].
  fold args in Hrun'. rewrite Hf in Hrun'. by rewrite Hrun'.
Qed.

Lemma query_failure_aborts_witness :
  exists log',
    Scripts.query_sentinel_products failing_catalog_world example_creds "POLYGON EMPTY"
      2020 2022 DEFAULT_CLOUD_MAX SENTINEL2_PRODUCTTYPE "Sentinel-2" (5, 8)
      (init example_store)
    = (inl ConnectionError,
       State (stamp (st_heap (init example_store))
                (gathered failing_catalog_world (api_of example_creds)
                   (st_trace (init example_store))
                   (window_args "POLYGON EMPTY" DEFAULT_CLOUD_MAX SENTINEL2_PRODUCTTYPE
                      "Sentinel-2" <$> [("2020-05-01", "2020-08-31")])))
             (st_trace (init example_store) ++
              (CallQuery (api_of example_creds)
                 <$> (window_args "POLYGON EMPTY" DEFAULT_CLOUD_MAX SENTINEL2_PRODUCTTYPE
                        "Sentinel-2"
                        <$> ([("2020-05-01", "2020-08-31")]
                             ++ [("2021-05-01", "2021-08-31")]))))
             log') /\
    ((5, 8) = (5, 8) ->
     fst (Original.query_sentinel_products failing_catalog_world example_creds
            "POLYGON EMPTY" 2020 2022 DEFAULT_CLOUD_MAX SENTINEL2_PRODUCTTYPE
            "Sentinel-2" (init example_store)) = inl ConnectionError).
Proof.
  apply (query_failure_aborts failing_catalog_world example_creds "POLYGON EMPTY"
           2020 2022 DEFAULT_CLOUD_MAX SENTINEL2_PRODUCTTYPE "Sentinel-2" (5, 8)
           [("2020-05-01", "2020-08-31")] [("2022-05-01", "2022-08-31")]
           ("2021-05-01", "2021-08-31") ConnectionError (init example_store)).
  - vm_compute. reflexivity.
  - vm_compute. reflexivity.
  - vm_compute. reflexivity.
Defined.

(** X5: whatever the outcome, [query_sentinel_products] writes no field of
    any record but ["_uid"]. *)
Theorem query_writes_uid_only (W : world) (creds : SentinelCredentials)
    (wkt_area : string) (start_year end_year : Z) (cloud_max : Q)
    (product_type platformname : string) (months : Z * Z) (s : state)
    (m : loc) (k : string) :
  k <> "_uid" ->
  deref (st_heap (snd (Scripts.query_sentinel_products W creds wkt_area start_year
                         end_year cloud_max product_type platformname months s))) m !! k
  = deref (st_heap s) m !! k /\
  deref (st_heap (snd (Original.query_sentinel_products W creds wkt_area start_year
                         end_year cloud_max product_type platformname s))) m !! k
  = deref (st_heap s) m !! k.
Proof.
  intros Hk. split.
  - destruct (Scripts._month_limited_date_ranges start_year end_year months)
      as [e|drs] eqn:Hb.
    + by rewrite scripts_query_unfold, Hb.
    + destruct (scripts_query_run W creds wkt_area cloud_max product_type platformname
                  start_year end_year months _ s Hb) as [log' ->].
      simpl. by apply stamp_other_field.
  - destruct (Original._month_limited_date_ranges start_year end_year (5, 8))
      as [e|drs] eqn:Hb.
    + by rewrite original_query_unfold, Hb.
    + destruct (original_query_run W creds wkt_area cloud_max product_type platformname
                  start_year end_year _ s Hb) as [log' ->].
      simpl. by apply stamp_other_field.
Qed.

Lemma query_writes_uid_only_witness :
  deref (st_heap (snd (Scripts.query_sentinel_products catalog_world example_creds
                         "POLYGON EMPTY" 2020 2021 DEFAULT_CLOUD_MAX
                         SENTINEL2_PRODUCTTYPE "Sentinel-2" (5, 8)
                         (init example_store)))) entry_b !! "beginposition"
  = deref (st_heap (init example_store)) entry_b !! "beginposition" /\
  deref (st_heap (snd (Original.query_sentinel_products catalog_world example_creds
                         "POLYGON EMPTY" 2020 2021 DEFAULT_CLOUD_MAX
                         SENTINEL2_PRODUCTTYPE "Sentinel-2"
                         (init example_store)))) entry_b !! "beginposition"
  = deref (st_heap (init example_store)) entry_b !! "beginposition".
Proof.
  apply (query_writes_uid_only catalog_world example_creds "POLYGON EMPTY" 2020 2021
           DEFAULT_CLOUD_MAX SENTINEL2_PRODUCTTYPE "Sentinel-2" (5, 8)
           (init example_store) entry_b "beginposition").
  discriminate.
Defined.

(** X6: when the queries return two or more items and the record of one of
    them has no timestamp, [query_sentinel_products] raises [TypeError],
    after it has made every query and written every ["_uid"]. *)
Theorem query_untimed_record_raises (W : world) (creds : SentinelCredentials)
    (wkt_area : string) (start_year end_year : Z) (cloud_max : Q)
    (product_type platformname : string) (months : Z * Z)
    (date_ranges : list (string * string)) (s : state) :
  Scripts._month_limited_date_ranges start_year end_year months = ok date_ranges ->
  let argss := window_args wkt_area cloud_max product_type platformname <$> date_ranges in
  let items := gathered W (api_of creds) (st_trace s) argss in
  first_failure W (api_of creds) (st_trace s) argss = None ->
  (2 <= length items)%nat ->
  (exists it, it ∈ items /\ sort_key (st_heap s) it.2 = VNone) ->
  exists log',
    Scripts.query_sentinel_products W creds wkt_area start_year end_year cloud_max
      product_type platformname months s
    = (raise TypeError,
       State (stamp (st_heap s) items)
             (st_trace s ++ (CallQuery (api_of creds) <$> argss)) log') /\
    (months = (5, 8) ->
     fst (Original.query_sentinel_products W creds wkt_area start_year end_year cloud_max
            product_type platformname s) = raise TypeError).
Proof.
  intros Hb argss items Hfail Hlen (it & Hin & Hnone).
  assert (list_sort (sort_key (st_heap s)) true items.*2 = raise TypeError) as Hsort.
  { apply list_sort_raises; [by rewrite length_fmap|].
    intros [k Hk]. rewrite Forall_fmap in Hk.
    apply (proj1 (Forall_forall _ _) Hk) in Hin. simpl in Hin. by rewrite Hnone in Hin. }
  destruct (scripts_query_run W creds wkt_area cloud_max product_type platformname
              start_year end_year months _ s Hb) as [log' Hrun].
  fold argss in Hrun. unfold api_of in *. fold items in Hrun.
  rewrite Hfail, Hsort, (queried_all _ _ _ _ Hfail) in Hrun.
  exists log'. split; [done|].
  intros ->. rewrite <- builders_agree in Hb.
  destruct (original_query_run W creds wkt_area cloud_max product_type platformname
              start_year end_year _ s Hb) as [log'' Hrun'].
  fold argss in Hrun'. fold items in Hrun'. rewrite Hfail, Hsort in Hrun'.
  by rewrite Hrun'.
Qed.

Lemma query_untimed_record_raises_witness :
  exists log',
    Scripts.query_sentinel_products untimed_catalog_world example_creds "POLYGON EMPTY"
      2020 2021 DEFAULT_CLOUD_MAX SENTINEL2_PRODUCTTYPE "Sentinel-2" (5, 8)
      (init example_store)
    = (raise TypeError,
       State (stamp (st_heap (init example_store))
                (gathered untimed_catalog_world (api_of example_creds)
                   (st_trace (init example_store))
                   (window_args "POLYGON EMPTY" DEFAULT_CLOUD_MAX SENTINEL2_PRODUCTTYPE
                      "Sentinel-2"
                      <$> [("2020-05-01", "2020-08-31"); ("2021-05-01", "2021-08-31")])))
             (st_trace (init example_store) ++
              (CallQuery (api_of example_creds)
                 <$> (window_args "POLYGON EMPTY" DEFAULT_CLOUD_MAX SENTINEL2_PRODUCTTYPE
                        "Sentinel-2"
                        <$> [("2020-05-01", "2020-08-31"); ("2021-05-01", "2021-08-31")])))
             log') /\
    ((5, 8) = (5, 8) ->
     fst (Original.query_sentinel_products untimed_catalog_world example_creds
            "POLYGON EMPTY" 2020 2021 DEFAULT_CLOUD_MAX SENTINEL2_PRODUCTTYPE
            "Sentinel-2" (init example_store)) = raise TypeError).
Proof.
  apply (query_untimed_record_raises untimed_catalog_world example_creds "POLYGON EMPTY"
           2020 2021 DEFAULT_CLOUD_MAX SENTINEL2_PRODUCTTYPE "Sentinel-2" (5, 8)
           [("2020-05-01", "2020-08-31"); ("2021-05-01", "2021-08-31")]
           (init example_store)).
  - vm_compute. reflexivity.
  - vm_compute. reflexivity.
  - vm_compute. lia.
  - exists (VStr "a", entry_a). split; [vm_compute; left|reflexivity].
Defined.

(** ** The download, call by call *)

Lemma ensure_dir_run (W : world) (path : string) (s : state) :
  Scripts._ensure_dir W path s
  = (if os_path_exists W (st_trace s) path then ok tt
     else os_makedirs W (st_trace s ++ [CallExists path]) path,
     State (st_heap s) (st_trace s ++ ensure_dir_calls W (st_trace s) path) (st_log s)).
Proof.
  unfold Scripts._ensure_dir, bindM, path_exists, makedirs, ret, ensure_dir_calls. simpl.
  destruct (os_path_exists W (st_trace s) path); simpl; [done|].
  by rewrite <- app_assoc.
Qed.

Lemma download_calls_cons api out_dir h m ms :
  download_calls api out_dir h (m :: ms)
  = (if truthy (uid_of h m) then [CallDownload api (uid_of h m) out_dir] else [])
    ++ download_calls api out_dir h ms.
Proof.
  unfold download_calls. rewrite filter_cons.
  destruct (truthy (uid_of h m)) eqn:Hu.
  - by rewrite decide_True.
  - by rewrite decide_False.
Qed.

(** The calls of the loop are the download calls of a prefix of the
    entries, of all of them when the loop returns. *)
Lemma download_loop_calls (W : world) (api : SentinelAPI) (out_dir : string)
    (products : list loc) (acc : list pyval) (s : state) :
  exists (n : nat) (log' : list logrec),
    snd (Scripts.download_loop W api out_dir products acc s)
    = State (st_heap s)
            (st_trace s ++ download_calls api out_dir (st_heap s) (take n products)) log' /\
    (forall acc', fst (Scripts.download_loop W api out_dir products acc s) = ok acc' ->
                  take n products = products).
Proof.
  revert acc s. induction products as [|m ms IH]; intros acc s.
  - exists 0%nat, (st_log s). rewrite download_loop_nil. simpl.
    unfold download_calls. simpl. rewrite app_nil_r. by destruct s.
  - destruct (truthy (uid_of (st_heap s) m)) eqn:Hu.
    + destruct (api_download W (st_trace s) api (uid_of (st_heap s) m) out_dir)
        as [e|res] eqn:Hd.
      * destruct (is_Exception e) eqn:He.
        -- rewrite (download_loop_failed _ _ _ _ _ _ _ e Hu Hd He).
           edestruct IH as (n & log' & -> & Hn). exists (S n), log'. simpl.
           rewrite download_calls_cons, Hu. rewrite <- app_assoc. split; [done|].
           intros acc' Hok. by rewrite (Hn acc' Hok).
        -- rewrite (download_loop_aborted _ _ _ _ _ _ _ e Hu Hd He).
           exists 1%nat. eexists. simpl. rewrite take_0, download_calls_cons, Hu.
           unfold download_calls at 1. simpl. split; [done|]. done.
      * rewrite (download_loop_done _ _ _ _ _ _ _ res Hu Hd).
        edestruct IH as (n & log' & -> & Hn). exists (S n), log'. simpl.
        rewrite download_calls_cons, Hu. rewrite <- app_assoc. split; [done|].
        intros acc' Hok. by rewrite (Hn acc' Hok).
    + rewrite (download_loop_skip _ _ _ _ _ _ _ Hu).
      edestruct IH as (n & log' & -> & Hn). exists (S n), log'. simpl.
      rewrite download_calls_cons, Hu. split; [done|].
      intros acc' Hok. by rewrite (Hn acc' Hok).
Qed.

Lemma download_products_run (W : world) (creds : SentinelCredentials)
    (products : list loc) (out_dir : string) (api : option SentinelAPI) (s : state) :
  Scripts.download_products W creds products out_dir api s
  = let s0 := State (st_heap s)
                    (st_trace s ++ ensure_dir_calls W (st_trace s) out_dir) (st_log s) in
    match (if os_path_exists W (st_trace s) out_dir then ok tt
           else os_makedirs W (st_trace s ++ [CallExists out_dir]) out_dir) with
    | inl e => (inl e, s0)
    | inr _ =>
        match Scripts.download_loop W (client creds api) out_dir products [] s0 with
        | (inl e, s') => (inl e, s')
        | (inr downloaded, s') =>
            (ok downloaded,
             State (st_heap s') (st_trace s')
                   (st_log s' ++ [log_downloaded (length downloaded)]))
        end
    end.
Proof.
  unfold Scripts.download_products.
  unfold bindM at 1. rewrite ensure_dir_run.
  destruct (if os_path_exists W (st_trace s) out_dir then _ else _) as [e|[]]; [done|].
  cbv zeta. unfold bindM at 1. fold (client creds api).
  destruct (Scripts.download_loop _ _ _ _ _ _) as [[e|downloaded] s']; done.
Qed.

Lemma download_products_trace (W : world) (creds : SentinelCredentials)
    (products : list loc) (out_dir : string) (api : option SentinelAPI) (s : state) :
  st_heap (snd (Scripts.download_products W creds products out_dir api s)) = st_heap s /\
  exists n : nat,
    st_trace (snd (Scripts.download_products W creds products out_dir api s))
    = st_trace s ++ ensure_dir_calls W (st_trace s) out_dir
      ++ download_calls (client creds api) out_dir (st_heap s) (take n products) /\
    (forall downloaded,
        fst (Scripts.download_products W creds products out_dir api s) = ok downloaded ->
        take n products = products).
Proof.
  rewrite download_products_run. cbv zeta.
  destruct (if os_path_exists W (st_trace s) out_dir then _ else _) as [e|[]].
  - split; [done|]. exists 0%nat. simpl. unfold download_calls. simpl.
    by rewrite !app_nil_r.
  - match goal with |- context [Scripts.download_loop ?W ?a ?d ?p ?acc ?s0] =>
      destruct (download_loop_calls W a d p acc s0) as (n & log' & Hs & Hn);
      destruct (Scripts.download_loop W a d p acc s0) as [[e|downloaded] s'] eqn:Hloop
    end; simpl in Hs; subst s'; simpl.
    + split; [done|]. exists n. by rewrite <- app_assoc.
    + split; [done|]. exists n. rewrite <- app_assoc. split; [done|].
      intros d' _. by apply (Hn downloaded).
Qed.

(** X7: whatever happens, [download_products] leaves the store as it is
    and calls nothing but the directory check, the directory creation if
    the directory is missing, and then [api.download] for the entries with
    an identifier, in the order of the entries and without a gap: for a
    prefix of the entries, and for all of them when it returns. *)
Theorem download_products_effects (W : world) (creds : SentinelCredentials)
    (products : list loc) (out_dir : string) (api : option SentinelAPI) (s : state) :
  Original.download_products W creds products out_dir api s
  = Scripts.download_products W creds products out_dir api s /\
  st_heap (snd (Scripts.download_products W creds products out_dir api s)) = st_heap s /\
  exists n : nat,
    st_trace (snd (Scripts.download_products W creds products out_dir api s))
    = st_trace s ++ ensure_dir_calls W (st_trace s) out_dir
      ++ download_calls (client creds api) out_dir (st_heap s) (take n products) /\
    (forall downloaded,
        fst (Scripts.download_products W creds products out_dir api s) = ok downloaded ->
        take n products = products).
Proof.
  split; [by rewrite download_products_agree|]. apply download_products_trace.
Qed.

(** X8: when the directory is missing and [os.makedirs] raises,
    [download_products] ends with that exception, whatever its class:
    nothing is downloaded and nothing is logged. *)
Theorem download_makedirs_failure (W : world) (creds : SentinelCredentials)
    (products : list loc) (out_dir : string) (api : option SentinelAPI) (s : state)
    (e : exn) :
  os_path_exists W (st_trace s) out_dir = false ->
  os_makedirs W (st_trace s ++ [CallExists out_dir]) out_dir = inl e ->
  Scripts.download_products W creds products out_dir api s
  = (inl e, State (st_heap s)
                  (st_trace s ++ [CallExists out_dir; CallMakedirs out_dir]) (st_log s)) /\
  Original.download_products W creds products out_dir api s
  = (inl e, State (st_heap s)
                  (st_trace s ++ [CallExists out_dir; CallMakedirs out_dir]) (st_log s)).
Proof.
  intros Hex Hmk. rewrite download_products_agree, download_products_run.
  unfold ensure_dir_calls. by rewrite Hex, Hmk.
Qed.

(** X9: an exception that is not an [Exception] ([KeyboardInterrupt],
    [SystemExit]) is not caught: it ends [download_products] at the entry
    [X] whose download raised it.  The paths gathered so far are not
    returned, the entries after [X] are not tried, and neither the failure
    nor the count is logged. *)
Theorem download_interrupt_aborts (W : world) (creds : SentinelCredentials)
    (out_dir : string) (api : option SentinelAPI) (l1 : list loc) (X : loc)
    (l2 : list loc) (s s1 : state) (acc1 : list pyval) (e : exn) :
  dir_ready W (st_trace s) out_dir ->
  Scripts.download_loop W (client creds api) out_dir l1 []
    (State (st_heap s) (st_trace s ++ ensure_dir_calls W (st_trace s) out_dir) (st_log s))
  = (ok acc1, s1) ->
  truthy (uid_of (st_heap s1) X) = true ->
  api_download W (st_trace s1) (client creds api) (uid_of (st_heap s1) X) out_dir = inl e ->
  is_Exception e = false ->
  Scripts.download_products W creds (l1 ++ X :: l2) out_dir api s
  = (inl e,
     State (st_heap s1)
           (st_trace s1 ++ [CallDownload (client creds api) (uid_of (st_heap s1) X) out_dir])
           (st_log s1 ++ [log_downloading (st_heap s1) X])) /\
  Original.download_products W creds (l1 ++ X :: l2) out_dir api s
  = (inl e,
     State (st_heap s1)
           (st_trace s1 ++ [CallDownload (client creds api) (uid_of (st_heap s1) X) out_dir])
           (st_log s1 ++ [log_downloading (st_heap s1) X])).
Proof.
  intros Hr Hl1 Hu Hd He.
  rewrite download_products_agree, download_products_eq by done.
  rewrite download_loop_app, Hl1. unfold ok. cbv beta iota.
  by rewrite (download_loop_aborted _ _ _ _ _ _ _ e Hu Hd He).
Qed.

Lemma download_makedirs_failure_witness :
  Scripts.download_products readonly_world example_creds [entry_b; entry_c] "out" None
    (init example_store)
  = (inl OSError,
     State (st_heap (init example_store))
           (st_trace (init example_store) ++ [CallExists "out"; CallMakedirs "out"])
           (st_log (init example_store))) /\
  Original.download_products readonly_world example_creds [entry_b; entry_c] "out" None
    (init example_store)
  = (inl OSError,
     State (st_heap (init example_store))
           (st_trace (init example_store) ++ [CallExists "out"; CallMakedirs "out"])
           (st_log (init example_store))).
Proof.
  apply (download_makedirs_failure readonly_world example_creds [entry_b; entry_c] "out"
           None (init example_store) OSError); reflexivity.
Defined.

Lemma download_interrupt_aborts_witness :
  Scripts.download_products interrupting_world example_creds
    ([entry_c] ++ entry_b :: [entry_c]) "out" None (init example_store)
  = (inl KeyboardInterrupt,
     State example_store
           [CallExists "out";
            CallDownload (client example_creds None) (VStr "c") "out";
            CallDownload (client example_creds None) (VStr "b") "out"]
           [log_downloading example_store entry_c;
            log_downloading example_store entry_b]) /\
  Original.download_products interrupting_world example_creds
    ([entry_c] ++ entry_b :: [entry_c]) "out" None (init example_store)
  = (inl KeyboardInterrupt,
     State example_store
           [CallExists "out";
            CallDownload (client example_creds None) (VStr "c") "out";
            CallDownload (client example_creds None) (VStr "b") "out"]
           [log_downloading example_store entry_c;
            log_downloading example_store entry_b]).
Proof.
  pose proof
    (download_interrupt_aborts interrupting_world example_creds "out" None
       [entry_c] entry_b [entry_c] (init example_store)
       (State example_store
              [CallExists "out"; CallDownload (client example_creds None) (VStr "c") "out"]
              [log_downloading example_store entry_c])
       [VStr "c.zip"] KeyboardInterrupt
       (or_introl eq_refl) eq_refl eq_refl eq_refl eq_refl) as H.
  exact H.
Defined.

(** ** The query and the download, one after the other *)

Lemma query_uids (W : world) (creds : SentinelCredentials)
    (wkt_area : string) (start_year end_year : Z) (cloud_max : Q)
    (product_type platformname : string) (months : Z * Z)
    (s s' : state) (results : list loc) :
  Original.query_sentinel_products W creds wkt_area start_year end_year cloud_max
    product_type platformname s = (ok results, s') \/
  Scripts.query_sentinel_products W creds wkt_area start_year end_year cloud_max
    product_type platformname months s = (ok results, s') ->
  forall m, m ∈ results ->
    exists uid,
      deref (st_heap s') m !! "_uid" = Some uid /\
      returned_by W (st_trace s') (length (st_trace s)) uid m.
Proof.
  rewrite original_query_unfold, scripts_query_unfold.
  intros [H|H].
  - destruct (Original._month_limited_date_ranges _ _ _) as [e|date_ranges]; [done|].
    exact (rest_uids _ _ _ _ _ _ _ _ _ _ H).
  - destruct (Scripts._month_limited_date_ranges _ _ _) as [e|date_ranges]; [done|].
    exact (rest_uids _ _ _ _ _ _ _ _ _ _ H).
Qed.

(** X10: when the first [n] results of a query are handed to
    [download_products], as [main_example] does, every call the download
    step makes is the directory check, the directory creation, or an
    [api.download] whose identifier is one under which the catalogue
    returned that very record in that query. *)
Theorem query_then_download (W : world) (creds : SentinelCredentials)
    (wkt_area : string) (start_year end_year : Z) (cloud_max : Q)
    (product_type platformname : string) (months : Z * Z) (n : nat) (out_dir : string)
    (s s1 : state) (results : list loc) :
  Original.query_sentinel_products W creds wkt_area start_year end_year cloud_max
    product_type platformname s = (ok results, s1) \/
  Scripts.query_sentinel_products W creds wkt_area start_year end_year cloud_max
    product_type platformname months s = (ok results, s1) ->
  forall c,
    c ∈ drop (length (st_trace s1))
             (st_trace (snd (Scripts.download_products W creds (take n results)
                               out_dir None s1))) ->
    c = CallExists out_dir \/ c = CallMakedirs out_dir \/
    exists m uid,
      m ∈ take n results /\
      c = CallDownload (api_of creds) uid out_dir /\
      truthy uid = true /\
      returned_by W (st_trace s1) (length (st_trace s)) uid m.
Proof.
  intros Hq c.
  destruct (download_products_trace W creds (take n results) out_dir None s1)
    as (_ & k & -> & _).
  rewrite drop_app_length. intros [Hc|Hc]%elem_of_app.
  - unfold ensure_dir_calls in Hc. destruct (os_path_exists W (st_trace s1) out_dir).
    + apply list_elem_of_singleton in Hc. by left.
    + apply elem_of_cons in Hc as [->|Hc]; [by left|].
      apply list_elem_of_singleton in Hc. right. by left.
  - right. right. unfold download_calls in Hc.
    apply list_elem_of_fmap in Hc as (m & -> & Hm).
    apply list_elem_of_filter in Hm as [Hu Hm].
    assert (m ∈ take n results) as Hm' by (by apply (subseteq_take k)).
    assert (m ∈ results) as Hm'' by (by apply (subseteq_take n)).
    destruct (query_uids W creds wkt_area start_year end_year cloud_max product_type
                platformname months s s1 results Hq m Hm'') as (uid & Huid & Hret).
    exists m, uid. unfold uid_of, dict_get in *. rewrite Huid in *. simpl in *.
    by repeat split.
Qed.

Lemma query_then_download_witness :
  CallDownload (api_of example_creds) (VStr "b") "out" = CallExists "out" \/
  CallDownload (api_of example_creds) (VStr "b") "out" = CallMakedirs "out" \/
  exists m uid,
    m ∈ take 1 [entry_b; entry_c] /\
    CallDownload (api_of example_creds) (VStr "b") "out"
    = CallDownload (api_of example_creds) uid "out" /\
    truthy uid = true /\
    returned_by catalog_world
      (st_trace (snd (Scripts.query_sentinel_products catalog_world example_creds
                        "POLYGON EMPTY" 2020 2021 DEFAULT_CLOUD_MAX
                        SENTINEL2_PRODUCTTYPE "Sentinel-2" (5, 8)
                        (init example_store))))
      (length (st_trace (init example_store))) uid m.
Proof.
  apply (query_then_download catalog_world example_creds "POLYGON EMPTY" 2020 2021
           DEFAULT_CLOUD_MAX SENTINEL2_PRODUCTTYPE "Sentinel-2" (5, 8) 1 "out"
           (init example_store)
           (snd (Scripts.query_sentinel_products catalog_world example_creds
                   "POLYGON EMPTY" 2020 2021 DEFAULT_CLOUD_MAX SENTINEL2_PRODUCTTYPE
                   "Sentinel-2" (5, 8) (init example_store)))
           [entry_b; entry_c]).
  - right. vm_compute. reflexivity.
  - vm_compute. right. left.
Defined.

(** ** Strings *)

#[local] Arguments String.append !_ _ / : simpl nomatch.

Lemma append_nil_r (s : string) : s +:+ "" = s.
Proof. induction s as [|c s IH]; simpl; [done|]. by rewrite IH. Qed.

Lemma append_assoc (s1 s2 s3 : string) : (s1 +:+ s2) +:+ s3 = s1 +:+ (s2 +:+ s3).
Proof. induction s1 as [|c s1 IH]; simpl; [done|]. by rewrite IH. Qed.

Lemma chars_append (s1 s2 : string) : chars (s1 +:+ s2) = chars s1 ++ chars s2.
Proof. induction s1 as [|c s1 IH]; simpl; [done|]. by rewrite IH. Qed.

(** ** The substitution of environment variables *)

Lemma span_name_brace (name rest : string) :
  "}"%char ∉ chars name ->
  span_name (name +:+ String "}" rest) = (name, String "}" rest).
Proof.
  induction name as [|c name IH]; simpl; intros Hn; [done|].
  apply not_elem_of_cons in Hn as [Hc Hn].
  destruct (Ascii.eqb_spec c "}") as [->|_]; [done|]. by rewrite IH.
Qed.

Lemma span_name_no_brace (s : string) :
  "}"%char ∉ chars s -> span_name s = (s, "").
Proof.
  induction s as [|c s IH]; simpl; intros Hn; [done|].
  apply not_elem_of_cons in Hn as [Hc Hn].
  destruct (Ascii.eqb_spec c "}") as [->|_]; [done|]. by rewrite IH.
Qed.

Lemma span_name_inv (s name rest : string) :
  span_name s = (name, rest) ->
  s = name +:+ rest /\ "}"%char ∉ chars name.
Proof.
  revert name rest. induction s as [|c s IH]; simpl; intros name rest.
  - intros [= <- <-]. split; [done|]. apply not_elem_of_nil.
  - destruct (Ascii.eqb_spec c "}") as [->|Hc].
    + intros [= <- <-]. split; [done|]. apply not_elem_of_nil.
    + destruct (span_name s) as [n r]. intros [= <- <-].
      destruct (IH n r eq_refl) as [-> Hn]. split; [done|]. simpl.
      apply not_elem_of_cons. split; [congruence|done].
Qed.

(** The pattern matches at the start of [s] exactly when [s] is ["${"],
    a name that is not empty and has no closing brace, a closing brace, and
    something more. *)
Lemma match_ref_Some (s name rest : string) :
  match_ref s = Some (name, rest) <->
  s = "${" +:+ name +:+ "}" +:+ rest /\ name <> "" /\ "}"%char ∉ chars name.
Proof.
  split.
  - unfold match_ref. destruct s as [|c1 [|c2 s]]; try done.
    + by destruct c1 as [[] [] [] [] [] [] [] []].
    + destruct c1 as [[] [] [] [] [] [] [] []]; try done.
      destruct c2 as [[] [] [] [] [] [] [] []]; try done.
      destruct (span_name s) as [n r] eqn:Hs.
      destruct n as [|c n]; [done|].
      destruct r as [|c' r]; [done|].
      destruct c' as [[] [] [] [] [] [] [] []]; try done.
      intros [= <- <-]. apply span_name_inv in Hs as [-> Hn]. by repeat split.
  - intros (-> & Hne & Hn). unfold match_ref. simpl.
    rewrite span_name_brace by done. by destruct name.
Qed.

Lemma match_ref_other (c : ascii) (s : string) :
  c <> "$"%char -> match_ref (String c s) = None.
Proof.
  intros Hc. unfold match_ref.
  destruct c as [[] [] [] [] [] [] [] []]; try done.
Qed.

Lemma match_ref_no_brace (s : string) :
  "}"%char ∉ chars s -> match_ref s = None.
Proof.
  intros Hn. destruct (match_ref s) as [[name rest]|] eqn:Hm; [|done].
  apply match_ref_Some in Hm as (-> & _ & _). exfalso. apply Hn.
  simpl. rewrite chars_append. simpl. set_solver.
Qed.

Lemma sub_from_skip (E : environ) (name rest : string) :
  sub_from E (String.length name + 2) (String "{" (name +:+ String "}" rest))
  = sub_from E 0 rest.
Proof.
  replace (String.length name + 2)%nat with (S (String.length name + 1)) by lia.
  cbn [sub_from]. induction name as [|c name IH]; simpl; [done|]. exact IH.
Qed.

(** At a match the value of the variable is put out, and the substitution
    goes on behind the match. *)
Lemma re_sub_env_match (E : environ) (s name rest : string) :
  match_ref s = Some (name, rest) ->
  re_sub_env E s = environ_get E name "" +:+ re_sub_env E rest.
Proof.
  intros Hm. pose proof Hm as (-> & Hne & Hn)%match_ref_Some.
  unfold re_sub_env.
  change ("${" +:+ name +:+ "}" +:+ rest)
    with (String "$" (String "{" (name +:+ String "}" rest))) in *.
  cbn [sub_from]. rewrite Hm. f_equal. apply sub_from_skip.
Qed.

(** Elsewhere the character is copied. *)
Lemma re_sub_env_copy (E : environ) (c : ascii) (s : string) :
  match_ref (String c s) = None ->
  re_sub_env E (String c s) = String c (re_sub_env E s).
Proof. intros Hm. unfold re_sub_env. cbn [sub_from]. by rewrite Hm. Qed.

Lemma re_sub_env_prefix (E : environ) (pre s : string) :
  "$"%char ∉ chars pre -> re_sub_env E (pre +:+ s) = pre +:+ re_sub_env E s.
Proof.
  induction pre as [|c pre IH]; simpl; intros Hn; [done|].
  apply not_elem_of_cons in Hn as [Hc Hn].
  rewrite re_sub_env_copy by (apply match_ref_other; congruence). by rewrite IH.
Qed.

Lemma re_sub_env_no_brace (E : environ) (s : string) :
  "}"%char ∉ chars s -> re_sub_env E s = s.
Proof.
  induction s as [|c s IH]; intros Hn; [done|].
  rewrite re_sub_env_copy by (by apply match_ref_no_brace).
  f_equal. apply IH. simpl in Hn. by apply not_elem_of_cons in Hn as [_ ?].
Qed.

Lemma re_sub_env_no_dollar (E : environ) (s : string) :
  "$"%char ∉ chars s -> re_sub_env E s = s.
Proof.
  intros Hn. pose proof (re_sub_env_prefix E s "" Hn) as H.
  rewrite append_nil_r in H. rewrite H. apply append_nil_r.
Qed.

(** Induction on configuration values, through lists and mappings. *)
Lemma cfg_ind' (P : cfg -> Prop) :
  P CNone -> (forall b, P (CBool b)) -> (forall z, P (CInt z)) ->
  (forall q, P (CFloat q)) -> (forall s, P (CStr s)) ->
  (forall l, Forall P l -> P (CList l)) ->
  (forall d, Forall (fun kv => P kv.2) d -> P (CDict d)) ->
  forall c, P c.
Proof.
  intros HN HB HI HF HS HL HD. fix IH 1.
  intros [|b|z|q|s|l|d]; [apply HN|apply HB|apply HI|apply HF|apply HS| |].
  - apply HL. induction l as [|c l IHl]; constructor; [apply IH|apply IHl].
  - apply HD. induction d as [|[k c] d IHd]; constructor; [apply IH|apply IHd].
Qed.

(** X11: in a string, a reference [${name}] that stands behind text
    without dollar sign is replaced by the value of the variable [name],
    or by the empty string when the variable is not set; the text before
    it is kept, the value is not itself resolved, and what follows the
    reference is resolved on its own. *)
Theorem resolve_reference (E : environ) (pre name post post' : string) :
  "$"%char ∉ chars pre -> name <> "" -> "}"%char ∉ chars name ->
  _resolve_env_vars E (CStr post) = CStr post' ->
  _resolve_env_vars E (CStr (pre +:+ "${" +:+ name +:+ "}" +:+ post))
  = CStr (pre +:+ default "" (E !! name) +:+ post').
Proof.
  intros Hpre Hne Hn [= <-]. simpl. f_equal.
  rewrite re_sub_env_prefix by done. f_equal.
  apply re_sub_env_match. apply match_ref_Some. by repeat split.
Qed.

Lemma resolve_reference_witness :
  _resolve_env_vars {[ "SENTINEL_USER" := "${HOME}" ]}
    (CStr ("user=" +:+ "${" +:+ "SENTINEL_USER" +:+ "}" +:+ ";pw=${SENTINEL_PW}"))
  = CStr ("user=" +:+ default "" (({[ "SENTINEL_USER" := "${HOME}" ]} : environ)
                                    !! "SENTINEL_USER") +:+ ";pw=").
Proof.
  apply (resolve_reference {[ "SENTINEL_USER" := "${HOME}" ]} "user=" "SENTINEL_USER"
           ";pw=${SENTINEL_PW}" ";pw=").
  - vm_compute. intros H. repeat (apply elem_of_cons in H as [H|H]; [discriminate H|]).
    by apply elem_of_nil in H.
  - discriminate.
  - vm_compute. intros H. repeat (apply elem_of_cons in H as [H|H]; [discriminate H|]).
    by apply elem_of_nil in H.
  - vm_compute. reflexivity.
Defined.

(** X12: a configuration in which every string lacks the dollar sign or
    lacks the closing brace comes back as it is, whatever the
    environment: a reference that is never closed is not a reference. *)
Theorem resolve_unchanged (E : environ) (c : cfg) :
  Forall (fun s => "$"%char ∉ chars s \/ "}"%char ∉ chars s) (cfg_strings c) ->
  _resolve_env_vars E c = c.
Proof.
  induction c as [| | | |s|l IH|d IH] using cfg_ind'; simpl; intros Hs; try done.
  - f_equal. apply Forall_cons in Hs as [[H|H] _].
    + by apply re_sub_env_no_dollar.
    + by apply re_sub_env_no_brace.
  - f_equal. induction IH as [|c l Hc _ IHl]; simpl in *; [done|].
    apply Forall_app in Hs as [Hs1 Hs2]. by rewrite Hc, IHl.
  - f_equal. induction IH as [|[k c] d Hc _ IHd]; simpl in *; [done|].
    apply Forall_app in Hs as [Hs1 Hs2]. by rewrite Hc, IHd.
Qed.

Lemma resolve_unchanged_witness :
  _resolve_env_vars {[ "A" := "x" ]}
    (CDict [("query", CDict [("months", CList [CInt 5; CInt 8]);
                             ("note", CStr "costs 5$ {net")]);
            ("open", CStr "${A")])
  = CDict [("query", CDict [("months", CList [CInt 5; CInt 8]);
                            ("note", CStr "costs 5$ {net")]);
           ("open", CStr "${A")].
Proof.
  apply (resolve_unchanged {[ "A" := "x" ]}). simpl.
  apply Forall_cons. split; [|apply Forall_cons; split; [|by apply Forall_nil]].
  - right. vm_compute. intros H.
    repeat (apply elem_of_cons in H as [H|H]; [discriminate H|]).
    by apply elem_of_nil in H.
  - right. vm_compute. intros H.
    repeat (apply elem_of_cons in H as [H|H]; [discriminate H|]).
    by apply elem_of_nil in H.
Defined.

(** X13: resolution changes strings only: a mapping keeps its keys, which
    are not resolved, and their order, a list keeps its length, every other
    scalar is left alone, and looking a key or an index up in the resolved
    value gives the resolved value of what was there before. *)
Theorem resolve_keeps_structure (E : environ) :
  (forall d, exists d',
      _resolve_env_vars E (CDict d) = CDict d' /\
      d'.*1 = d.*1 /\
      forall k, assoc k d' = _resolve_env_vars E <$> assoc k d) /\
  (forall l, exists l',
      _resolve_env_vars E (CList l) = CList l' /\
      length l' = length l /\
      forall i : nat, l' !! i = _resolve_env_vars E <$> (l !! i)) /\
  (forall s, exists s', _resolve_env_vars E (CStr s) = CStr s') /\
  _resolve_env_vars E CNone = CNone /\
  (forall b, _resolve_env_vars E (CBool b) = CBool b) /\
  (forall z, _resolve_env_vars E (CInt z) = CInt z) /\
  (forall q, _resolve_env_vars E (CFloat q) = CFloat q).
Proof.
  repeat split.
  - intros d. exists (map (fun kv => (kv.1, _resolve_env_vars E kv.2)) d).
    split; [reflexivity|]. split.
    + induction d as [|[k c] d IH]; [done|]. cbn [map fmap list_fmap]. by f_equal.
    + intros k. induction d as [|[k' c] d IH]; [done|]. cbn [map assoc fst snd].
      by destruct (String.eqb k k').
  - intros l. exists (map (_resolve_env_vars E) l).
    split; [reflexivity|]. split.
    + by rewrite length_map.
    + intros i. apply list_lookup_fmap.
  - intros s. by eexists.
Qed.

(** ** The band stacking *)

Lemma startswith_spec (s p : string) :
  startswith s p = true <-> exists q, s = p +:+ q.
Proof.
  revert s. induction p as [|c p IH]; intros s.
  - destruct s; simpl; (split; [by eexists|done]).
  - destruct s as [|d s]; simpl.
    + split; [done|]. by intros [q ?].
    + rewrite andb_true_iff, IH. split.
      * intros [->%Ascii.eqb_eq [q ->]]. by exists q.
      * intros [q [= -> ->]]. split; [apply Ascii.eqb_refl|by exists q].
Qed.

Lemma contains_nil (sub : string) : contains sub "" = startswith "" sub.
Proof. simpl. apply orb_false_r. Qed.

Lemma contains_cons (sub : string) (c : ascii) (s : string) :
  contains sub (String c s) = startswith (String c s) sub || contains sub s.
Proof. reflexivity. Qed.

Lemma contains_spec (sub s : string) :
  contains sub s = true <-> exists a b, s = a +:+ sub +:+ b.
Proof.
  induction s as [|c s IH].
  - rewrite contains_nil, startswith_spec. split.
    + intros [q Hq]. by exists "", q.
    + intros (a & b & Hab). destruct a; simpl in Hab; [by exists b|done].
  - rewrite contains_cons, orb_true_iff, startswith_spec, IH. split.
    + intros [[q Hq]|(a & b & ->)]; [by exists "", q|by exists (String c a), b].
    + intros (a & b & Hab). destruct a as [|d a]; simpl in Hab.
      * left. by exists b.
      * right. injection Hab as -> ->. by exists a, b.
Qed.

Lemma endswith_nil (suf : string) : endswith "" suf = String.eqb "" suf.
Proof. simpl. apply orb_false_r. Qed.

Lemma endswith_cons (c : ascii) (s suf : string) :
  endswith (String c s) suf = String.eqb (String c s) suf || endswith s suf.
Proof. reflexivity. Qed.

Lemma endswith_spec (s suf : string) :
  endswith s suf = true <-> exists a, s = a +:+ suf.
Proof.
  induction s as [|c s IH].
  - rewrite endswith_nil, String.eqb_eq. split.
    + intros <-. by exists "".
    + intros [a Ha]. destruct a; simpl in Ha; [done|discriminate].
  - rewrite endswith_cons, orb_true_iff, String.eqb_eq, IH. split.
    + intros [<-|[a ->]]; [by exists ""|by exists (String c a)].
    + intros [a Ha]. destruct a as [|d a]; simpl in Ha.
      * by left.
      * right. injection Ha as -> ->. by exists a.
Qed.

Lemma scan_files_spec (L : pylib) (band root : string) (files : list string)
    (found : option string) :
  scan_files L band root files found
  = match head (filter (fun f => band_matches L band f = true) files) with
    | Some f => Some (os_path_join L root f)
    | None => found
    end.
Proof.
  induction files as [|f files IH]; simpl; [done|].
  rewrite filter_cons. destruct (band_matches L band f) eqn:Hm.
  - by rewrite decide_True.
  - by rewrite decide_False.
Qed.

Lemma scan_walk_spec (L : pylib) (band : string)
    (walk : list (string * list string * list string)) :
  well_joined L ->
  scan_walk L band walk None = head (candidates L band walk) /\
  (is_Some (head (candidates L band walk)) ->
   found_truthy (scan_walk L band walk None) = true).
Proof.
  intros HL. unfold candidates.
  induction walk as [|[[root dirs] files] walk [IH1 IH2]]; simpl.
  - split; [done|]. by intros [? ?].
  - rewrite scan_files_spec.
    destruct (filter (fun f => band_matches L band f = true) files) as [|f fs] eqn:Hf;
      simpl; [done|].
    assert (band_matches L band f = true) as Hm.
    { assert (f ∈ filter (fun f => band_matches L band f = true) files) as Hin
        by (rewrite Hf; left).
      by apply list_elem_of_filter in Hin as [? _]. }
    pose proof (HL band root f Hm) as Hne.
    assert (String.eqb (os_path_join L root f) "" = false) as ->
      by (by apply String.eqb_neq).
    simpl. split; [done|]. intros _. by apply String.eqb_neq in Hne as ->.
Qed.

Section Stacking.
Context (T : toolkit) (L : pylib) (dir : string) (t : list rcall).

Lemma walks_S i : walks t dir i ++ [CallWalk dir] = walks t dir (S i).
Proof.
  unfold walks. rewrite <- app_assoc. f_equal.
  change [CallWalk dir] with (replicate 1 (CallWalk dir)).
  rewrite <- replicate_add. f_equal. lia.
Qed.

(** The loop when every band has a candidate. *)
Lemma find_band_files_found band_list i acc log :
  well_joined L ->
  (forall j band, band_list !! j = Some band ->
                  is_Some (picked T L dir t (i + j) band)) ->
  find_band_files T L dir band_list acc (RState (walks t dir i) log)
  = (inr (acc ++ picked_files T L dir t i band_list),
     RState (walks t dir (i + length band_list)) log).
Proof.
  intros HL. revert i acc. induction band_list as [|band bands IH]; intros i acc Hall.
  - simpl. by rewrite app_nil_r, Nat.add_0_r.
  - cbn [find_band_files r_trace r_log picked_files].
    destruct (scan_walk_spec L band (os_walk T (walks t dir i) dir) HL) as [Hs Ht].
    specialize (Hall 0%nat band eq_refl) as Hb. rewrite Nat.add_0_r in Hb.
    unfold picked in *. rewrite (Ht Hb), Hs. cbn [negb].
    rewrite walks_S, IH.
    + simpl. rewrite <- app_assoc. do 3 f_equal. lia.
    + intros j b Hj. replace (S i + j)%nat with (i + S j)%nat by lia.
      by apply Hall.
Qed.

(** The loop up to a band without candidate. *)
Lemma find_band_files_missing before band after i acc log :
  well_joined L ->
  (forall j b, before !! j = Some b -> is_Some (picked T L dir t (i + j) b)) ->
  picked T L dir t (i + length before) band = None ->
  find_band_files T L dir (before ++ band :: after) acc (RState (walks t dir i) log)
  = (inl FileNotFoundError, RState (walks t dir (i + length before + 1)) log).
Proof.
  intros HL. revert i acc. induction before as [|b before IH]; intros i acc Hall Hnone.
  - cbn [app find_band_files r_trace r_log length].
    rewrite Nat.add_0_r in Hnone.
    destruct (scan_walk_spec L band (os_walk T (walks t dir i) dir) HL) as [Hs _].
    unfold picked in Hnone. rewrite Hs, Hnone. cbn [found_truthy negb].
    rewrite walks_S. do 3 f_equal. lia.
  - cbn [app find_band_files r_trace r_log].
    destruct (scan_walk_spec L b (os_walk T (walks t dir i) dir) HL) as [Hs Ht].
    specialize (Hall 0%nat b eq_refl) as Hb. rewrite Nat.add_0_r in Hb.
    unfold picked in Hb. rewrite (Ht Hb). cbn [negb].
    rewrite walks_S, IH.
    + do 3 f_equal. simpl. lia.
    + intros j b' Hj. replace (S i + j)%nat with (i + S j)%nat by lia.
      by apply Hall.
    + replace (S i + length before)%nat with (i + length (b :: before))%nat
        by (simpl; lia). done.
Qed.
End Stacking.

Lemma picked_files_lookup (T : toolkit) (L : pylib) (dir : string) (t : list rcall)
    (band_list : list string) (i j : nat) (band : string) :
  band_list !! j = Some band ->
  picked_files T L dir t i band_list !! j
  = Some (default "" (picked T L dir t (i + j) band)).
Proof.
  revert i j. induction band_list as [|b bands IH]; intros i j; [done|].
  destruct j as [|j]; simpl.
  - intros [= ->]. by rewrite Nat.add_0_r.
  - intros Hj. rewrite (IH (S i) j Hj). do 3 f_equal. lia.
Qed.

Lemma picked_files_length (T : toolkit) (L : pylib) (dir : string) (t : list rcall)
    (band_list : list string) (i : nat) :
  length (picked_files T L dir t i band_list) = length band_list.
Proof. revert i. induction band_list as [|b bands IH]; intros i; simpl; [done|]. by rewrite IH. Qed.

(** X14: when every band has a qualifying file in the tree at the time it
    is looked for, [select_and_stack_bands] walks the tree once per band,
    takes for each band the first qualifying file in the order of the walk,
    and then calls [CompositeBands] once, on these files in the order of
    the bands; it returns [out_raster] if that call returns, and lets its
    exception through otherwise. *)
Theorem stack_bands_found (T : toolkit) (L : pylib) (sentinel_safe_dir : string)
    (band_list : list string) (out_raster : string) (st : rstate) :
  well_joined L ->
  (forall i band, band_list !! i = Some band ->
                  is_Some (picked T L sentinel_safe_dir (r_trace st) i band)) ->
  let files := picked_files T L sentinel_safe_dir (r_trace st) 0 band_list in
  let t' := walks (r_trace st) sentinel_safe_dir (length band_list) in
  select_and_stack_bands T L sentinel_safe_dir band_list out_raster st
  = (match composite_bands T t' files out_raster with
     | inl e => inl e
     | inr _ => inr out_raster
     end,
     RState (t' ++ [CallCompositeBands files out_raster])
            (r_log st
             ++ [RLog INFO "Preparing band stack from: %s" [RStr sentinel_safe_dir];
                 RLog INFO "Compositing bands: %s -> %s" [RList band_list; RStr out_raster]]
             ++ match composite_bands T t' files out_raster with
                | inl _ => []
                | inr _ => [RLog INFO "Composite created: %s" [RStr out_raster]]
                end)) /\
  length files = length band_list /\
  forall i band, band_list !! i = Some band ->
                 picked T L sentinel_safe_dir (r_trace st) i band = files !! i.
Proof.
  intros HL Hall files t'. split; [|split].
  - unfold select_and_stack_bands. cbn [r_trace r_log].
    pose proof (find_band_files_found T L sentinel_safe_dir (r_trace st) band_list 0 []
                  (r_log st ++ [RLog INFO "Preparing band stack from: %s"
                                     [RStr sentinel_safe_dir]]) HL Hall) as Hrun.
    unfold walks at 1 in Hrun. simpl replicate in Hrun. rewrite app_nil_r in Hrun.
    rewrite Hrun. cbn [app r_trace r_log Nat.add]. fold files. fold t'.
    destruct (composite_bands T t' files out_raster) as [e|[]].
    + by rewrite <- !app_assoc.
    + by rewrite <- !app_assoc.
  - apply picked_files_length.
  - intros i band Hi. unfold files.
    rewrite (picked_files_lookup _ _ _ _ _ 0 i band Hi). simpl.
    by destruct (Hall i band Hi) as [p ->].
Qed.

Lemma stack_bands_found_witness :
  select_and_stack_bands example_toolkit ascii_lib "S2.SAFE" ["b04"; "B02"] "rgb.tif"
    (RState [] [])
  = (inr "rgb.tif",
     RState [CallWalk "S2.SAFE"; CallWalk "S2.SAFE";
             CallCompositeBands ["S2.SAFE/GRANULE/R10m/T04_B04_10m.JP2";
                                 "S2.SAFE/GRANULE/R10m/T04_B02_10m.jp2"] "rgb.tif"]
            [RLog INFO "Preparing band stack from: %s" [RStr "S2.SAFE"];
             RLog INFO "Compositing bands: %s -> %s" [RList ["b04"; "B02"]; RStr "rgb.tif"];
             RLog INFO "Composite created: %s" [RStr "rgb.tif"]]).
Proof.
  assert (well_joined ascii_lib) as HL
    by (intros band root f _; simpl; destruct root; discriminate).
  assert (forall i band, ["b04"; "B02"] !! i = Some band ->
            is_Some (picked example_toolkit ascii_lib "S2.SAFE" [] i band)) as Hall.
  { intros [|[|i]] band; simpl; intros [= <-]; vm_compute; eauto. }
  pose proof (proj1 (stack_bands_found example_toolkit ascii_lib "S2.SAFE" ["b04"; "B02"]
                       "rgb.tif" (RState [] []) HL Hall)) as H.
  exact H.
Defined.

(** X15: when a band has no qualifying file in the tree,
    [select_and_stack_bands] raises [FileNotFoundError] at that band: the
    bands after it are not looked for, and [CompositeBands] is not
    called. *)
Theorem stack_band_missing (T : toolkit) (L : pylib) (sentinel_safe_dir : string)
    (before : list string) (band : string) (after : list string)
    (out_raster : string) (st : rstate) :
  well_joined L ->
  (forall j b, before !! j = Some b ->
               is_Some (picked T L sentinel_safe_dir (r_trace st) j b)) ->
  picked T L sentinel_safe_dir (r_trace st) (length before) band = None ->
  select_and_stack_bands T L sentinel_safe_dir (before ++ band :: after) out_raster st
  = (inl FileNotFoundError,
     RState (walks (r_trace st) sentinel_safe_dir (length before + 1))
            (r_log st ++ [RLog INFO "Preparing band stack from: %s"
                               [RStr sentinel_safe_dir]])).
Proof.
  intros HL Hall Hnone. unfold select_and_stack_bands. cbn [r_trace r_log].
  pose proof (find_band_files_missing T L sentinel_safe_dir (r_trace st) before band
                after 0 []
                (r_log st ++ [RLog INFO "Preparing band stack from: %s"
                                   [RStr sentinel_safe_dir]]) HL Hall Hnone) as Hrun.
  unfold walks at 1 in Hrun. simpl replicate in Hrun. rewrite app_nil_r in Hrun.
  by rewrite Hrun.
Qed.

Lemma stack_band_missing_witness :
  select_and_stack_bands example_toolkit ascii_lib "S2.SAFE" (["b04"] ++ "B03" :: ["B02"])
    "rgb.tif" (RState [] [])
  = (inl FileNotFoundError,
     RState [CallWalk "S2.SAFE"; CallWalk "S2.SAFE"]
            [RLog INFO "Preparing band stack from: %s" [RStr "S2.SAFE"]]).
Proof.
  assert (well_joined ascii_lib) as HL
    by (intros band root f _; simpl; destruct root; discriminate).
  assert (forall j b, ["b04"] !! j = Some b ->
            is_Some (picked example_toolkit ascii_lib "S2.SAFE" [] j b)) as Hall.
  { intros [|j] b; simpl; intros [= <-]; vm_compute; eauto. }
  pose proof (stack_band_missing example_toolkit ascii_lib "S2.SAFE" ["b04"] "B03" ["B02"]
                "rgb.tif" (RState [] []) HL Hall eq_refl) as H.
  exact H.
Defined.

Lemma band_matches_spec (L : pylib) (band f : string) :
  band_matches L band f = true <-> qualifies L band f.
Proof.
  unfold band_matches, qualifies.
  rewrite andb_true_iff, orb_true_iff, contains_spec, !endswith_spec.
  split; intros [Hc He]; (split; [done|]).
  - destruct He as [[a Ha]|[a Ha]]; exists a; eauto.
  - destruct He as [a [Ha|Ha]]; [left|right]; by exists a.
Qed.

Lemma elem_of_candidates (L : pylib) (band : string)
    (walk : list (string * list string * list string)) (p : string) :
  p ∈ candidates L band walk <->
  exists root dirs files f,
    (root, dirs, files) ∈ walk /\ f ∈ files /\ p = os_path_join L root f /\
    qualifies L band f.
Proof.
  unfold candidates. rewrite list_elem_of_In, in_concat. split.
  - intros (l & Hl & Hp). apply in_map_iff in Hl as ([[root dirs] files] & <- & Hw).
    apply list_elem_of_In in Hw.
    apply in_map_iff in Hp as (f & <- & Hf).
    apply list_elem_of_In, list_elem_of_filter in Hf as [Hm Hf].
    exists root, dirs, files, f. do 3 (split; [done|]). by apply band_matches_spec.
  - intros (root & dirs & files & f & Hw & Hf & -> & Hq).
    exists (map (os_path_join L root) (filter (fun f => band_matches L band f = true) files)).
    split.
    + apply in_map_iff. exists (root, dirs, files). split; [done|].
      by apply list_elem_of_In.
    + apply in_map. apply list_elem_of_In, list_elem_of_filter.
      split; [|done]. by apply band_matches_spec.
Qed.

(** Either every band has a candidate, or there is a first one without. *)
Lemma picked_cases (T : toolkit) (L : pylib) (dir : string) (t : list rcall)
    (band_list : list string) (i : nat) :
  (forall j band, band_list !! j = Some band ->
                  is_Some (picked T L dir t (i + j) band)) \/
  (exists before band after,
      band_list = before ++ band :: after /\
      (forall j b, before !! j = Some b -> is_Some (picked T L dir t (i + j) b)) /\
      picked T L dir t (i + length before) band = None).
Proof.
  revert i. induction band_list as [|band bands IH]; intros i.
  - left. by intros j band.
  - destruct (picked T L dir t i band) as [p|] eqn:Hp.
    + destruct (IH (S i)) as [Hall|(before & b & after & -> & Hbefore & Hnone)].
      * left. intros [|j] b; simpl.
        -- intros [= <-]. rewrite Nat.add_0_r, Hp. by eexists.
        -- intros Hj. replace (i + S j)%nat with (S i + j)%nat by lia. by apply Hall.
      * right. exists (band :: before), b, after. split; [done|]. split.
        -- intros [|j] b'; simpl.
           ++ intros [= <-]. rewrite Nat.add_0_r, Hp. by eexists.
           ++ intros Hj. replace (i + S j)%nat with (S i + j)%nat by lia.
              by apply Hbefore.
        -- simpl. by replace (i + S (length before))%nat
             with (S i + length before)%nat by lia.
    + right. exists [], band, bands. split; [done|]. split; [by intros j b|].
      simpl. by rewrite Nat.add_0_r.
Qed.

(** The calls of a run in which every band has a candidate, and of one in
    which a band has none. *)
Lemma stack_trace_found (T : toolkit) (L : pylib) (dir : string)
    (band_list : list string) (out : string) (st : rstate) :
  well_joined L ->
  (forall j band, band_list !! j = Some band ->
                  is_Some (picked T L dir (r_trace st) j band)) ->
  drop (length (r_trace st))
       (r_trace (snd (select_and_stack_bands T L dir band_list out st)))
  = replicate (length band_list) (CallWalk dir)
    ++ [CallCompositeBands (picked_files T L dir (r_trace st) 0 band_list) out].
Proof.
  intros HL Hall. unfold select_and_stack_bands. cbn [r_trace r_log].
  pose proof (find_band_files_found T L dir (r_trace st) band_list 0 []
                (r_log st ++ [RLog INFO "Preparing band stack from: %s" [RStr dir]])
                HL Hall) as Hrun.
  unfold walks at 1 in Hrun. simpl replicate in Hrun. rewrite app_nil_r in Hrun.
  rewrite Hrun. cbn [app r_trace r_log Nat.add].
  destruct (composite_bands _ _ _ _) as [e|[]]; cbn [snd r_trace];
    unfold walks; by rewrite <- app_assoc, drop_app_length.
Qed.

Lemma stack_trace_missing (T : toolkit) (L : pylib) (dir : string)
    (before : list string) (band : string) (after : list string) (out : string)
    (st : rstate) :
  well_joined L ->
  (forall j b, before !! j = Some b -> is_Some (picked T L dir (r_trace st) j b)) ->
  picked T L dir (r_trace st) (length before) band = None ->
  drop (length (r_trace st))
       (r_trace (snd (select_and_stack_bands T L dir (before ++ band :: after) out st)))
  = replicate (length before + 1) (CallWalk dir).
Proof.
  intros HL Hall Hnone. unfold select_and_stack_bands. cbn [r_trace r_log].
  pose proof (find_band_files_missing T L dir (r_trace st) before band after 0 []
                (r_log st ++ [RLog INFO "Preparing band stack from: %s" [RStr dir]])
                HL Hall Hnone) as Hrun.
  unfold walks at 1 in Hrun. simpl replicate in Hrun. rewrite app_nil_r in Hrun.
  rewrite Hrun. cbn [snd r_trace Nat.add]. unfold walks. by rewrite drop_app_length.
Qed.

Lemma picked_Some_qualifies (T : toolkit) (L : pylib) (dir : string) (t : list rcall)
    (i : nat) (band p : string) :
  picked T L dir t i band = Some p ->
  exists root dirs fs f,
    (root, dirs, fs) ∈ os_walk T (walks t dir i) dir /\ f ∈ fs /\
    p = os_path_join L root f /\ qualifies L band f.
Proof.
  unfold picked. intros Hp. apply elem_of_candidates.
  destruct (candidates L band (os_walk T (walks t dir i) dir)) as [|q l]; [done|].
  injection Hp as ->. left.
Qed.

Lemma qualifies_picked (T : toolkit) (L : pylib) (dir : string) (t : list rcall)
    (i : nat) (band : string) root dirs fs f :
  (root, dirs, fs) ∈ os_walk T (walks t dir i) dir -> f ∈ fs -> qualifies L band f ->
  is_Some (picked T L dir t i band).
Proof.
  intros Hw Hf Hq. unfold picked.
  assert (os_path_join L root f ∈ candidates L band (os_walk T (walks t dir i) dir)) as Hin
    by (apply elem_of_candidates; by exists root, dirs, fs, f).
  destruct (candidates L band (os_walk T (walks t dir i) dir)) as [|q l]; [|by eexists].
  by apply elem_of_nil in Hin.
Qed.

(** X16: [select_and_stack_bands] calls [CompositeBands] exactly when every
    band has a qualifying file among those the walk made for it yields: a
    file whose name contains the upper-cased band name (the name itself is
    taken as it is) and, lower-cased, ends in [.jp2] or [.tif].  The call
    is then made with [out_raster] and with one path per band, in the
    order of the bands, each the join of a walked directory and such a
    file of it. *)
Theorem stack_inputs_qualify (T : toolkit) (L : pylib) (sentinel_safe_dir : string)
    (band_list : list string) (out_raster : string) (st : rstate) :
  well_joined L ->
  let calls :=
    drop (length (r_trace st))
         (r_trace (snd (select_and_stack_bands T L sentinel_safe_dir band_list
                          out_raster st))) in
  let walked (i : nat) :=
    os_walk T (walks (r_trace st) sentinel_safe_dir i) sentinel_safe_dir in
  ((exists in_rasters out, CallCompositeBands in_rasters out ∈ calls) <->
   (forall i band, band_list !! i = Some band ->
      exists root dirs files f,
        (root, dirs, files) ∈ walked i /\ f ∈ files /\ qualifies L band f)) /\
  (forall in_rasters out,
      CallCompositeBands in_rasters out ∈ calls ->
      out = out_raster /\ length in_rasters = length band_list /\
      forall i band, band_list !! i = Some band ->
        exists root dirs files f,
          (root, dirs, files) ∈ walked i /\ f ∈ files /\ qualifies L band f /\
          in_rasters !! i = Some (os_path_join L root f)).
Proof.
  intros HL calls walked.
  destruct (picked_cases T L sentinel_safe_dir (r_trace st) band_list 0)
    as [Hall|(before & band & after & -> & Hbefore & Hnone)]; simpl in *.
  - assert (calls = replicate (length band_list) (CallWalk sentinel_safe_dir)
                    ++ [CallCompositeBands
                          (picked_files T L sentinel_safe_dir (r_trace st) 0 band_list)
                          out_raster]) as Hcalls
      by (by apply stack_trace_found).
    assert (forall i band, band_list !! i = Some band ->
              exists root dirs files f,
                (root, dirs, files) ∈ walked i /\ f ∈ files /\ qualifies L band f /\
                picked_files T L sentinel_safe_dir (r_trace st) 0 band_list !! i
                = Some (os_path_join L root f)) as Hfiles.
    { intros i band Hi. rewrite (picked_files_lookup _ _ _ _ _ 0 i band Hi). simpl.
      destruct (Hall i band Hi) as [p Hp]. rewrite Hp. simpl.
      destruct (picked_Some_qualifies _ _ _ _ _ _ _ Hp)
        as (root & dirs & fs & f & ? & ? & -> & ?).
      by exists root, dirs, fs, f. }
    split.
    + split.
      * intros _ i band Hi.
        destruct (Hfiles i band Hi) as (root & dirs & fs & f & ? & ? & ? & _).
        by exists root, dirs, fs, f.
      * intros _. eexists _, _. rewrite Hcalls. apply elem_of_app. right. left.
    + intros in_rasters out Hin. rewrite Hcalls in Hin.
      apply elem_of_app in Hin as [Hin|Hin].
      * by apply elem_of_replicate in Hin as [? _].
      * apply list_elem_of_singleton in Hin as [= -> ->].
        split; [done|]. split; [apply picked_files_length|done].
  - assert (calls = replicate (length before + 1) (CallWalk sentinel_safe_dir)) as Hcalls
      by (by apply stack_trace_missing).
    assert (forall in_rasters out, CallCompositeBands in_rasters out ∉ calls) as Hno.
    { intros in_rasters out Hin. rewrite Hcalls in Hin.
      by apply elem_of_replicate in Hin as [? _]. }
    split.
    + split.
      * intros (in_rasters & out & Hin). by apply Hno in Hin.
      * intros Hq. exfalso.
        destruct (Hq (length before) band) as (root & dirs & fs & f & Hw & Hf & Hqf).
        { by rewrite list_lookup_middle. }
        destruct (qualifies_picked T L sentinel_safe_dir (r_trace st) (length before)
                    band root dirs fs f Hw Hf Hqf) as [p Hp].
        congruence.
    + intros in_rasters out Hin. by apply Hno in Hin.
Qed.

Lemma stack_inputs_qualify_witness :
  let st := RState [] [] in
  let calls :=
    drop (length (r_trace st))
         (r_trace (snd (select_and_stack_bands example_toolkit ascii_lib "S2.SAFE"
                          ["b04"; "B02"] "rgb.tif" st))) in
  let walked (i : nat) :=
    os_walk example_toolkit (walks (r_trace st) "S2.SAFE" i) "S2.SAFE" in
  ((exists in_rasters out, CallCompositeBands in_rasters out ∈ calls) <->
   (forall i band, ["b04"; "B02"] !! i = Some band ->
      exists root dirs files f,
        (root, dirs, files) ∈ walked i /\ f ∈ files /\ qualifies ascii_lib band f)) /\
  (forall in_rasters out,
      CallCompositeBands in_rasters out ∈ calls ->
      out = "rgb.tif" /\ length in_rasters = length ["b04"; "B02"] /\
      forall i band, ["b04"; "B02"] !! i = Some band ->
        exists root dirs files f,
          (root, dirs, files) ∈ walked i /\ f ∈ files /\ qualifies ascii_lib band f /\
          in_rasters !! i = Some (os_path_join ascii_lib root f)).
Proof.
  assert (well_joined ascii_lib) as HL
    by (intros band root f _; simpl; destruct root; discriminate).
  pose proof (stack_inputs_qualify example_toolkit ascii_lib "S2.SAFE" ["b04"; "B02"]
                "rgb.tif" (RState [] []) HL) as H.
  exact H.
Defined.
